(** * Wrapper generator for libbpf: [scripts/parse_bpf_h.py]

    A shallow embedding of the generator script and the properties of its
    declaration extractor, signature parser and code emitter.

    Python [str] values are modelled by [string]: a character is a code
    point below 256.  Python integers are [Z]; exceptions are values of
    [Py.exn] carried by [Py.result]. *)

From Stdlib Require Import ZArith List Bool Ascii String Lia.
Import ListNotations.
Open Scope Z_scope.
Open Scope list_scope.
Open Scope string_scope.

(** ** The Python built-ins the script relies on *)

Module Py.

Inductive exn : Set := IndexError | KeyError | ValueError.

Inductive result (A : Type) : Type :=
| Ok (a : A)
| Raise (e : exn).
Arguments Ok {A} a.
Arguments Raise {A} e.

Definition bind {A B} (c : result A) (k : A -> result B) : result B :=
  match c with
  | Ok a => k a
  | Raise e => Raise e
  end.

(** Truth value of an [int]: everything but [0] is true. *)
Definition truthy (n : Z) : bool := negb (n =? 0)%Z.

(** [s.find(sub)]: the lowest index at which [sub] occurs in [s], [-1]
    when it does not occur. *)
Fixpoint find_from (i : Z) (sub s : string) : Z :=
  if prefix sub s then i
  else match s with
       | EmptyString => -1
       | String _ s' => find_from (i + 1) sub s'
       end.

Definition find (s sub : string) : Z := find_from 0 sub s.

(** Slice bounds: a negative bound counts from the end, and every bound
    is clamped to [0 .. len]. *)
Definition clamp (len i : Z) : Z :=
  if (i <? 0)%Z then Z.max 0 (len + i) else Z.min i len.

Definition bounds (len : Z) (lo hi : option Z) : Z * Z :=
  (match lo with None => 0 | Some i => clamp len i end,
   match hi with None => len | Some i => clamp len i end).

(** [s[lo:hi]] on a [str]. *)
Definition str_slice (lo hi : option Z) (s : string) : string :=
  let '(a, b) := bounds (Z.of_nat (String.length s)) lo hi in
  substring (Z.to_nat a) (Z.to_nat (b - a)) s.

(** [l[lo:hi]] on a [list]. *)
Definition list_slice {A} (lo hi : option Z) (l : list A) : list A :=
  let '(a, b) := bounds (Z.of_nat (List.length l)) lo hi in
  firstn (Z.to_nat (b - a)) (skipn (Z.to_nat a) l).

(** [l[i]] on a [list]; out of range raises. *)
Definition list_get {A} (l : list A) (i : Z) : result A :=
  let len := Z.of_nat (List.length l) in
  let j := if (i <? 0)%Z then len + i else i in
  if ((j <? 0) || (len <=? j))%Z then Raise IndexError
  else match nth_error l (Z.to_nat j) with
       | Some x => Ok x
       | None => Raise IndexError
       end.

(** [c.isspace()] for the code points below 256. *)
Definition isspace (c : ascii) : bool :=
  let n := nat_of_ascii c in
  existsb (Nat.eqb n) [9; 10; 11; 12; 13; 28; 29; 30; 31; 32; 133; 160]%nat.

Definition snoc (s : string) (c : ascii) : string := s ++ String c "".

(** [s.split()]: the maximal runs of non-whitespace characters. *)
Fixpoint split_ws_go (cur s : string) : list string :=
  match s with
  | EmptyString => if cur =? "" then [] else [cur]
  | String c s' =>
      if isspace c
      then if cur =? "" then split_ws_go "" s' else cur :: split_ws_go "" s'
      else split_ws_go (snoc cur c) s'
  end.

Definition split_ws (s : string) : list string := split_ws_go "" s.

(** [s.split(sep)] for a separator of one character: the pieces between
    the separators, empty pieces included. *)
Fixpoint split_go (sep : ascii) (cur s : string) : list string :=
  match s with
  | EmptyString => [cur]
  | String c s' =>
      if Ascii.eqb c sep then cur :: split_go sep "" s'
      else split_go sep (snoc cur c) s'
  end.

Definition split (sep : ascii) (s : string) : list string := split_go sep "" s.

Fixpoint mem (c : ascii) (chars : string) : bool :=
  match chars with
  | EmptyString => false
  | String d chars' => Ascii.eqb c d || mem c chars'
  end.

(** [s.lstrip(chars)]: drop the leading characters that are in [chars]. *)
Fixpoint lstrip (chars s : string) : string :=
  match s with
  | EmptyString => ""
  | String c s' => if mem c chars then lstrip chars s' else s
  end.

(** [sep.join(l)]. *)
Definition join (sep : string) (l : list string) : string := String.concat sep l.

(** Line boundaries of [str.splitlines] among the code points below 256. *)
Definition islinebreak (c : ascii) : bool :=
  let n := nat_of_ascii c in
  existsb (Nat.eqb n) [10; 11; 12; 13; 28; 29; 30; 133]%nat.

Definition CR : ascii := ascii_of_nat 13.
Definition LF : ascii := ascii_of_nat 10.

(** [s.splitlines()]: the lines without their boundaries; a carriage
    return followed by a line feed is one boundary, and there is no empty
    last line after a final boundary. *)
Fixpoint splitlines_go (cur s : string) : list string :=
  match s with
  | EmptyString => if cur =? "" then [] else [cur]
  | String c s' =>
      if Ascii.eqb c CR
      then match s' with
           | String d s'' =>
               if Ascii.eqb d LF then cur :: splitlines_go "" s''
               else cur :: splitlines_go "" s'
           | EmptyString => cur :: splitlines_go "" s'
           end
      else if islinebreak c then cur :: splitlines_go "" s'
      else splitlines_go (snoc cur c) s'
  end.

Definition splitlines (s : string) : list string := splitlines_go "" s.

Fixpoint lookup (name : string) (kwargs : list (string * string)) : result string :=
  match kwargs with
  | [] => Raise KeyError
  | (k, v) :: kwargs' => if k =? name then Ok v else lookup name kwargs'
  end.

(** [template.format] with keyword arguments: a doubled brace is a
    literal brace, [{name}] is replaced by the value bound to [name].
    [field] is the name being read while inside braces. *)
Fixpoint format_go (kwargs : list (string * string)) (field : option string)
         (t : string) : result string :=
  match t with
  | EmptyString =>
      match field with
      | None => Ok ""
      | Some _ => Raise ValueError
      end
  | String c t' =>
      match field with
      | Some name =>
          if Ascii.eqb c "}"
          then bind (lookup name kwargs) (fun v =>
               bind (format_go kwargs None t') (fun r => Ok (v ++ r)))
          else format_go kwargs (Some (snoc name c)) t'
      | None =>
          if Ascii.eqb c "{"
          then match t' with
               | String d t'' =>
                   if Ascii.eqb d "{"
                   then bind (format_go kwargs None t'') (fun r => Ok (String "{" r))
                   else format_go kwargs (Some "") t'
               | EmptyString => Raise ValueError
               end
          else if Ascii.eqb c "}"
          then match t' with
               | String d t'' =>
                   if Ascii.eqb d "}"
                   then bind (format_go kwargs None t'') (fun r => Ok (String "}" r))
                   else Raise ValueError
               | EmptyString => Raise ValueError
               end
          else bind (format_go kwargs None t') (fun r => Ok (String c r))
      end
  end.

Definition format (t : string) (kwargs : list (string * string)) : result string :=
  format_go kwargs None t.

(** [print(s)] on a standard output modelled by the text written so far. *)
Definition print (s : string) (stdout : string) : string :=
  stdout ++ s ++ String LF "".

End Py.

Import Py.

Notation "x <- c ;; k" := (Py.bind c (fun x => k))
  (at level 61, c at next level, right associativity).

(** ** The templates *)

(** The double quote character, which the C templates contain. *)
Definition dq : string := String (ascii_of_nat 34) "".

Definition PREAMBLE : string := "#include <bpf/bpf.h>
#include <dlfcn.h>
#include <pthread.h>

".

Definition INIT : string := "
static bool init_done = false;
static void* default_rtld = NULL;
static pthread_mutex_t init_lock = PTHREAD_MUTEX_INITIALIZER;

static void inline init_dl(void)
{
    pthread_mutex_lock(&init_lock);
    if (!init_done) {
        default_rtld = dlopen(" ++ dq ++ "libbpf.so" ++ dq ++ ", RTLD_LOCAL);
        init_done = true;
    }
    pthread_mutex_unlock(&init_lock);
}
".

Definition DECLARE_TEMPLATE : string := "
static  {func_return} (*real_{func_name})({func_args}) = NULL;
".

Definition INVOKE_NON_VOID_TEMPLATE : string := "
{func_return} {func_name}({func_args})
{{
    init_dl();
    if (!real_{func_name}) {{
        real_{func_name} = dlsym(default_rtld, " ++ dq ++ "{func_name}" ++ dq ++ ");
    }}
    return real_{func_name}({processed_args});
}}

".

Definition INVOKE_VOID_TEMPLATE : string := "
{func_return} {func_name}({func_args})
{{
    init_dl();
    if (!real_{func_name}) {{
        real_{func_name} = dlsym(default_rtld, " ++ dq ++ "{func_name}" ++ dq ++ ");
    }}
    real_{func_name}({processed_args});
}}

".

(** ** [class ExportedFunction]: a visible function of the BPF API *)

Record ExportedFunction : Set := {
  func_def : string;
  func_name : string;
  func_return : string;
  func_args : string;
  processed_args : string
}.

(** The loop of the constructor over the comma-separated parameters: the
    last token of each, without its leading stars. *)
Fixpoint call_args (pieces : list string) : result (list string) :=
  match pieces with
  | [] => Ok []
  | token :: pieces' =>
      last <- list_get (split_ws token) (-1) ;;
      res <- call_args pieces' ;;
      Ok (lstrip "*" last :: res)
  end.

(** [ExportedFunction.__init__] *)
Definition ExportedFunction_init (text : string) : result ExportedFunction :=
  let left := find text "(" in
  let right := find text ")" in
  let tokens := split_ws (str_slice None (Some left) text) in
  name <- list_get tokens (-1) ;;
  let ret := join " " (list_slice (Some 1) (Some (-1)) tokens) in
  let args := str_slice (Some (left + 1)) (Some right) text in
  res <- call_args (split "," args) ;;
  Ok {| func_def := text;
        func_name := name;
        func_return := ret;
        func_args := args;
        processed_args := join ", " res |}.

(** [ExportedFunction.dump_wrapper] *)
Definition dump_wrapper (self : ExportedFunction) : result string :=
  if func_return self =? "void"
  then format INVOKE_VOID_TEMPLATE
         [("func_return", func_return self);
          ("func_name", func_name self);
          ("func_args", func_args self);
          ("processed_args", processed_args self)]
  else format INVOKE_NON_VOID_TEMPLATE
         [("func_return", func_return self);
          ("func_name", func_name self);
          ("func_args", func_args self);
          ("processed_args", processed_args self)].

(** [ExportedFunction.dump_declaration] *)
Definition dump_declaration (self : ExportedFunction) : result string :=
  format DECLARE_TEMPLATE
    [("func_return", func_return self);
     ("func_name", func_name self);
     ("func_args", func_args self)].

(** ** [main] *)

(** The configuration read from the JSON file; [include] names the header
    and is resolved by the caller, who passes the header's text. *)
Record Config : Set := {
  include : string;
  exceptions : list string
}.

(** The variables of the extraction loop. *)
Record Loop : Set := {
  start : bool;
  acc : string;
  defs : list ExportedFunction
}.

(** [line.find("LIBBPF_API") != -1] and [line.find(";") != -1]. *)
Definition has_marker (line : string) : bool :=
  negb (find line "LIBBPF_API" =? -1)%Z.

Definition has_terminator (line : string) : bool :=
  negb (find line ";" =? -1)%Z.

(** The inner loop over the exceptions: [start] is cleared, and the loop
    left, at the first [skip] for which [func_def.find(skip)] is true. *)
Fixpoint skip_loop (skips : list string) (text : string) (start0 : bool) : bool :=
  match skips with
  | [] => start0
  | skip :: skips' =>
      if truthy (find text skip) then false else skip_loop skips' text start0
  end.

(** One iteration of the loop over the header's lines. *)
Definition loop_body (config : Config) (st : Loop) (line : string) : result Loop :=
  let start1 := if has_marker line then true else start st in
  let acc1 := if start1 then acc st ++ line ++ String LF "" else acc st in
  if has_terminator line && start1
  then
    let start2 := skip_loop (exceptions config) acc1 start1 in
    defs' <- (if start2
              then f <- ExportedFunction_init acc1 ;; Ok (defs st ++ [f])%list
              else Ok (defs st)) ;;
    Ok {| start := false; acc := ""; defs := defs' |}
  else Ok {| start := start1; acc := acc1; defs := defs st |}.

Fixpoint loop (config : Config) (st : Loop) (lines : list string) : result Loop :=
  match lines with
  | [] => Ok st
  | line :: lines' => st' <- loop_body config st line ;; loop config st' lines'
  end.

Definition init_loop : Loop := {| start := false; acc := ""; defs := [] |}.

(** A [for] loop that prints what [dump] renders for each definition.  The
    result is how the loop ends and what standard output holds then. *)
Fixpoint print_all (dump : ExportedFunction -> result string)
         (l : list ExportedFunction) (stdout : string) : result unit * string :=
  match l with
  | [] => (Ok tt, stdout)
  | f :: l' =>
      match dump f with
      | Ok s => print_all dump l' (print s stdout)
      | Raise e => (Raise e, stdout)
      end
  end.

(** The body of [main] from the lines of the header on. *)
Definition main_lines (config : Config) (lines : list string) (stdout : string)
  : result unit * string :=
  match loop config init_loop lines with
  | Raise e => (Raise e, stdout)
  | Ok st =>
      let stdout := print PREAMBLE stdout in
      let stdout := print INIT stdout in
      match print_all dump_declaration (defs st) stdout with
      | (Raise e, stdout) => (Raise e, stdout)
      | (Ok _, stdout) => print_all dump_wrapper (defs st) stdout
      end
  end.

(** [main], given the configuration, the text of the header it names and
    what standard output holds before the run: how the run ends, and what
    standard output holds after it. *)
Definition main (config : Config) (header : string) (stdout : string)
  : result unit * string :=
  main_lines config (splitlines header) stdout.

(** ** What the extractor computes, stated apart from the loop *)

Definition nl : string := String LF "".

(** The terminated declarations of the header, in the order of their
    lines: the text accumulated from a marker line to the next line with a
    terminator.  [start0] and [acc0] are the flag and the accumulator on
    entry. *)
Fixpoint raw_decls (start0 : bool) (acc0 : string) (lines : list string) : list string :=
  match lines with
  | [] => []
  | line :: lines' =>
      let start1 := has_marker line || start0 in
      let acc1 := if start1 then acc0 ++ line ++ nl else acc0 in
      if has_terminator line && start1
      then acc1 :: raw_decls false "" lines'
      else raw_decls start1 acc1 lines'
  end.

(** The constructor applied to each text in turn; the first failure ends it. *)
Fixpoint construct_all (texts : list string) : result (list ExportedFunction) :=
  match texts with
  | [] => Ok []
  | text :: texts' =>
      f <- ExportedFunction_init text ;;
      fs <- construct_all texts' ;;
      Ok (f :: fs)
  end.

(** The rendered fragments in closed form.  [ret_kw] is what stands before
    the forwarded call in the body of the wrapper. *)
Definition ret_kw (f : ExportedFunction) : string :=
  if func_return f =? "void" then "" else "return ".

Definition declaration_text (f : ExportedFunction) : string :=
  nl ++ "static  " ++ func_return f ++ " (*real_" ++ func_name f ++ ")("
     ++ func_args f ++ ") = NULL;" ++ nl.

Definition wrapper_text (ret_kw : string) (f : ExportedFunction) : string :=
  nl ++ func_return f ++ " " ++ func_name f ++ "(" ++ func_args f ++ ")" ++ nl
     ++ "{" ++ nl
     ++ "    init_dl();" ++ nl
     ++ "    if (!real_" ++ func_name f ++ ") {" ++ nl
     ++ "        real_" ++ func_name f ++ " = dlsym(default_rtld, " ++ dq
     ++ func_name f ++ dq ++ ");" ++ nl
     ++ "    }" ++ nl
     ++ "    " ++ ret_kw ++ "real_" ++ func_name f ++ "(" ++ processed_args f ++ ");" ++ nl
     ++ "}" ++ nl ++ nl.


(** The declarations the code keeps: those in which every exception is
    found at position 0. *)
Definition accepted (skips : list string) (text : string) : bool :=
  forallb (fun skip => (find text skip =? 0)%Z) skips.

(** Concatenation of the printed fragments. *)
Definition flat (l : list string) : string := fold_right append "" l.

(** What a completed run writes for the definitions [fs]. *)
Definition emitted (fs : list ExportedFunction) : string :=
  PREAMBLE ++ nl ++ INIT ++ nl
    ++ flat (map (fun f => declaration_text f ++ nl) fs)
    ++ flat (map (fun f => wrapper_text (ret_kw f) f ++ nl) fs).

(** ** What the constructor computes, stated apart from its code *)

Fixpoint any (p : ascii -> bool) (s : string) : bool :=
  match s with
  | EmptyString => false
  | String c s' => p c || any p s'
  end.

(** A piece of text has a token when some character of it is not
    whitespace. *)
Definition has_token (piece : string) : bool :=
  any (fun c => negb (isspace c)) piece.

(** The call argument taken from one comma-separated parameter. *)
Definition arg_of (piece : string) : string :=
  lstrip "*" (last (split_ws piece) "").

(** One token of a declaration: not empty, and free of whitespace,
    parentheses and commas. *)
Definition token (s : string) : bool :=
  negb (s =? "") && negb (any isspace s)
  && negb (mem "(" s) && negb (mem ")" s) && negb (mem "," s).

(** The two parts of a text the constructor works on: what stands before
    the first opening parenthesis, and what stands between it and the
    first closing one. *)
Definition head_of (text : string) : string :=
  str_slice None (Some (find text "(")) text.

Definition params_of (text : string) : string :=
  str_slice (Some (find text "(" + 1)) (Some (find text ")")) text.

(** A text parses when a token stands before its parameter list and in
    each comma-separated piece of it. *)
Definition parses (text : string) : bool :=
  has_token (head_of text) && forallb has_token (split "," (params_of text)).

(** The signature the constructor builds from a text that parses. *)
Definition signature_of (text : string) : ExportedFunction :=
  {| func_def := text;
     func_name := last (split_ws (head_of text)) "";
     func_return := join " " (list_slice (Some 1) (Some (-1)) (split_ws (head_of text)));
     func_args := params_of text;
     processed_args := join ", " (map arg_of (split "," (params_of text))) |}.

(** The shape [MARKER RET NAME(T1 a, T2 *b)] followed by [rest]. *)
Definition two_params (T1 a T2 b : string) : string :=
  T1 ++ " " ++ a ++ ", " ++ T2 ++ " *" ++ b.

Definition declaration (M R N params rest : string) : string :=
  M ++ " " ++ R ++ " " ++ N ++ "(" ++ params ++ ")" ++ rest.

(** ** [main] from the parsed configuration on *)

(** The values [json.load] returns.  A dictionary is its items in the
    order of the file, the keys distinct.  The value of a float plays no
    part in the script. *)
#[warnings="-register-all"]
Inductive value : Set :=
| VNone
| VBool (b : bool)
| VInt (n : Z)
| VFloat
| VStr (s : string)
| VList (l : list value)
| VDict (items : list (string * value)).

(** The exceptions of the built-ins, and those the configuration and the
    file system add. *)
Inductive error : Set :=
| Exn (e : exn)
| TypeError
| OSError
| UnicodeDecodeError.

Inductive outcome (A : Type) : Type :=
| Done (a : A)
| Fail (e : error).
Arguments Done {A} a.
Arguments Fail {A} e.

Definition obind {A B} (c : outcome A) (k : A -> outcome B) : outcome B :=
  match c with
  | Done a => k a
  | Fail e => Fail e
  end.

Notation "x <~ c ;; k" := (obind c (fun x => k))
  (at level 61, c at next level, right associativity).

Definition lift {A} (r : result A) : outcome A :=
  match r with
  | Ok a => Done a
  | Raise e => Fail (Exn e)
  end.

Fixpoint assoc (key : string) (items : list (string * value)) : option value :=
  match items with
  | [] => None
  | (k, v) :: items' => if k =? key then Some v else assoc key items'
  end.

(** [v[key]] for a [str] key: only a dictionary can be indexed by it. *)
Definition getitem (v : value) (key : string) : outcome value :=
  match v with
  | VDict items =>
      match assoc key items with
      | Some x => Done x
      | None => Fail (Exn KeyError)
      end
  | _ => Fail TypeError
  end.

(** What [for skip in v] goes through: the elements of a list, the
    characters of a string, the keys of a dictionary. *)
Definition iter (v : value) : outcome (list value) :=
  match v with
  | VList l => Done l
  | VStr s => Done (map (fun c => VStr (String c "")) (list_ascii_of_string s))
  | VDict items => Done (map (fun kv => VStr (fst kv)) items)
  | _ => Fail TypeError
  end.

(** The inner loop over the exceptions as they are in the configuration:
    [func_def.find(skip)] takes a [str] only. *)
Fixpoint skip_values (skips : list value) (text : string) (start0 : bool)
  : outcome bool :=
  match skips with
  | [] => Done start0
  | VStr skip :: skips' =>
      if truthy (find text skip) then Done false
      else skip_values skips' text start0
  | _ :: _ => Fail TypeError
  end.

(** One iteration of the loop; [config["exceptions"]] is looked up where
    the loop over it starts. *)
Definition loop_body_config (config : value) (st : Loop) (line : string) : outcome Loop :=
  let start1 := if has_marker line then true else start st in
  let acc1 := if start1 then acc st ++ line ++ String LF "" else acc st in
  if has_terminator line && start1
  then
    excs <~ getitem config "exceptions" ;;
    skips <~ iter excs ;;
    start2 <~ skip_values skips acc1 start1 ;;
    defs' <~ (if start2
              then f <~ lift (ExportedFunction_init acc1) ;;
                   Done (defs st ++ [f])%list
              else Done (defs st)) ;;
    Done {| start := false; acc := ""; defs := defs' |}
  else Done {| start := start1; acc := acc1; defs := defs st |}.

Fixpoint loop_config (config : value) (st : Loop) (lines : list string) : outcome Loop :=
  match lines with
  | [] => Done st
  | line :: lines' => st' <~ loop_body_config config st line ;; loop_config config st' lines'
  end.

(** [main] from [config = json.load(...)] on.  [open_read path] stands
    for [open(path, "r").read()], the text of the file or the error of
    the file system. *)
Definition main_config (open_read : value -> outcome string) (config : value)
           (stdout : string) : outcome unit * string :=
  match (path <~ getitem config "include" ;;
         header <~ open_read path ;;
         loop_config config init_loop (splitlines header)) with
  | Fail e => (Fail e, stdout)
  | Done st =>
      let stdout := print PREAMBLE stdout in
      let stdout := print INIT stdout in
      match print_all dump_declaration (defs st) stdout with
      | (Raise e, stdout) => (Fail (Exn e), stdout)
      | (Ok _, stdout) =>
          let '(r, stdout) := print_all dump_wrapper (defs st) stdout in
          (lift r, stdout)
      end
  end.

(** ** Strings *)

Section Strings.

Lemma append_nil_r (s : string) : s ++ "" = s.
Proof. induction s as [|c s IH]; simpl; congruence. Qed.

Lemma append_assoc (s t u : string) : (s ++ t) ++ u = s ++ t ++ u.
Proof. induction s as [|c s IH]; simpl; congruence. Qed.

Lemma length_append (s t : string) :
  String.length (s ++ t) = (String.length s + String.length t)%nat.
Proof. induction s as [|c s IH]; simpl; congruence. Qed.

Lemma snoc_append (s t : string) (c : ascii) : snoc s c ++ t = s ++ String c t.
Proof. unfold snoc. now rewrite append_assoc. Qed.

Lemma substring_zero (n : nat) (s : string) : substring n 0 s = "".
Proof.
  revert n; induction s as [|c s IH]; intros [|n]; simpl; auto.
Qed.

Lemma substring_head (s t : string) : substring 0 (String.length s) (s ++ t) = s.
Proof.
  induction s as [|c s IH]; simpl.
  - now destruct t.
  - now rewrite IH.
Qed.

Lemma substring_skip (s t : string) (m : nat) :
  substring (String.length s) m (s ++ t) = substring 0 m t.
Proof. induction s as [|c s IH]; simpl; auto. Qed.

End Strings.

(** ** [find] *)

Section Find.

Lemma find_from_range (sub s : string) (i : Z) :
  find_from i sub s = -1 \/ i <= find_from i sub s.
Proof.
  revert i; induction s as [|c s IH]; intros i; cbn [find_from].
  - destruct (prefix sub ""); [right; lia | now left].
  - destruct (prefix sub (String c s)); [right; lia|].
    destruct (IH (i + 1)) as [H|H]; [now left | right; lia].
Qed.

(** [find] answers [0] exactly when [sub] starts [s]. *)
Lemma find_zero_prefix (s sub : string) :
  find s sub = 0 <-> prefix sub s = true.
Proof.
  unfold find. destruct s as [|c s]; cbn [find_from].
  - destruct (prefix sub ""); split; intros H; try reflexivity; discriminate.
  - destruct (prefix sub (String c s)); split; intros H;
      try reflexivity; try discriminate.
    exfalso. destruct (find_from_range sub s (0 + 1)); lia.
Qed.

(** The position of the first occurrence of a character. *)
Lemma find_char (c : ascii) (p r : string) (i : Z) :
  mem c p = false ->
  find_from i (String c "") (p ++ String c r) = i + Z.of_nat (String.length p).
Proof.
  revert i; induction p as [|d p IH]; intros i H; simpl in *.
  - destruct (ascii_dec c c); [|contradiction].
    destruct r; simpl; lia.
  - apply orb_false_elim in H as [Hd Hp].
    destruct (ascii_dec c d) as [->|].
    + now rewrite Ascii.eqb_refl in Hd.
    + rewrite (IH (i + 1) Hp). lia.
Qed.

End Find.

(** ** The extraction loop *)

Section Extractor.

Variable config : Config.

Lemma skip_loop_accepted (skips : list string) (text : string) :
  skip_loop skips text true = accepted skips text.
Proof.
  induction skips as [|k skips IH]; simpl; [reflexivity|].
  unfold truthy. destruct (find text k =? 0)%Z; simpl; auto.
Qed.

Lemma accepted_prefix (skips : list string) (text : string) :
  accepted skips text = true <->
  (forall skip, In skip skips -> prefix skip text = true).
Proof.
  unfold accepted. rewrite forallb_forall.
  split; intros H k Hk.
  - apply find_zero_prefix, Z.eqb_eq, H, Hk.
  - apply Z.eqb_eq, find_zero_prefix, H, Hk.
Qed.

(** One iteration at a line that ends a declaration. *)
Lemma loop_body_terminated (st : Loop) (line : string) :
  has_terminator line = true ->
  has_marker line || start st = true ->
  loop_body config st line =
    if accepted (exceptions config) (acc st ++ line ++ nl)
    then f <- ExportedFunction_init (acc st ++ line ++ nl) ;;
         Ok {| start := false; acc := ""; defs := (defs st ++ [f])%list |}
    else Ok {| start := false; acc := ""; defs := defs st |}.
Proof.
  intros Ht Hs. unfold loop_body. rewrite Ht.
  assert ((if has_marker line then true else start st) = true) as ->
    by (destruct (has_marker line); auto).
  cbn [andb]. rewrite skip_loop_accepted. fold nl.
  destruct (accepted _ _); [|reflexivity].
  destruct (ExportedFunction_init _); reflexivity.
Qed.

(** One iteration at any other line. *)
Lemma loop_body_open (st : Loop) (line : string) :
  has_terminator line && (has_marker line || start st) = false ->
  loop_body config st line =
    Ok {| start := has_marker line || start st;
          acc := if has_marker line || start st
                 then acc st ++ line ++ nl else acc st;
          defs := defs st |}.
Proof.
  intros H. unfold loop_body. fold nl.
  assert ((if has_marker line then true else start st)
          = (has_marker line || start st)) as ->
    by (destruct (has_marker line); auto).
  now rewrite H.
Qed.

(** The loop builds the definitions of the accepted declarations, in
    their order, after those it starts from; it fails where the first
    constructor fails. *)
Lemma loop_defs (lines : list string) (st : Loop) :
  (st' <- loop config st lines ;; Ok (defs st')) =
  (fs <- construct_all
           (filter (accepted (exceptions config))
                   (raw_decls (start st) (acc st) lines)) ;;
   Ok (defs st ++ fs)%list).
Proof.
  revert st; induction lines as [|line lines IH]; intros st.
  - simpl. now rewrite app_nil_r.
  - cbn [loop raw_decls].
    destruct (has_terminator line && (has_marker line || start st)) eqn:E.
    + apply andb_prop in E as [Ht Hs].
      rewrite (loop_body_terminated st line Ht Hs), Hs.
      cbn [filter]. destruct (accepted _ _); cbn [construct_all].
      * destruct (ExportedFunction_init _) as [f|e]; simpl; [|reflexivity].
        rewrite IH. cbn [start acc defs].
        destruct (construct_all _); simpl; [|reflexivity].
        now rewrite <- app_assoc.
      * simpl. now rewrite IH.
    + rewrite (loop_body_open st line E). simpl. now rewrite IH.
Qed.

Lemma raw_decls_app (l1 l2 : list string) (b : bool) (a : string) :
  exists b' a',
    raw_decls b a (l1 ++ l2)%list = (raw_decls b a l1 ++ raw_decls b' a' l2)%list.
Proof.
  revert b a; induction l1 as [|line l1 IH]; intros b a.
  - now exists b, a.
  - cbn [app raw_decls].
    destruct (has_terminator line && (has_marker line || b)).
    + destruct (IH false "") as (b' & a' & ->). now exists b', a'.
    + apply IH.
Qed.

(** Lines without a terminator complete no declaration. *)
Lemma raw_decls_unterminated (l : list string) (b : bool) (a : string) :
  Forall (fun line => has_terminator line = false) l ->
  raw_decls b a l = [].
Proof.
  intros H; revert b a; induction H as [|line l Hl _ IH]; intros b a.
  - reflexivity.
  - cbn [raw_decls]. rewrite Hl. apply IH.
Qed.

End Extractor.

(** ** The emitter *)

Section Emitter.

(** The templates are well formed and every field they name is given, so
    rendering cannot fail. *)
Lemma dump_declaration_text (f : ExportedFunction) :
  dump_declaration f = Ok (declaration_text f).
Proof. destruct f. vm_compute. reflexivity. Qed.

Lemma dump_wrapper_text (f : ExportedFunction) :
  dump_wrapper f = Ok (wrapper_text (ret_kw f) f).
Proof.
  destruct f as [d n r a p]. unfold dump_wrapper, ret_kw. cbn [func_return].
  destruct (r =? "void"); vm_compute; reflexivity.
Qed.

Lemma print_all_text (dump : ExportedFunction -> result string)
      (render : ExportedFunction -> string) :
  (forall f, dump f = Ok (render f)) ->
  forall fs stdout,
    print_all dump fs stdout
    = (Ok tt, stdout ++ flat (map (fun f => render f ++ nl) fs)).
Proof.
  intros Hd fs; induction fs as [|f fs IH]; intros stdout; simpl.
  - now rewrite append_nil_r.
  - rewrite Hd, IH. unfold print. fold nl.
    now rewrite !append_assoc.
Qed.

(** A run either stops in the loop, before anything is written, or
    writes the whole text for the definitions the loop built. *)
Lemma main_lines_emitted (config : Config) (lines : list string) (stdout : string) :
  main_lines config lines stdout =
    match construct_all (filter (accepted (exceptions config))
                                (raw_decls false "" lines)) with
    | Ok fs => (Ok tt, stdout ++ emitted fs)
    | Raise e => (Raise e, stdout)
    end.
Proof.
  unfold main_lines.
  pose proof (loop_defs config lines init_loop) as H. cbn [init_loop start acc defs] in H.
  destruct (construct_all _) as [fs|e];
    destruct (loop config init_loop lines) as [st|e']; simpl in H;
    try discriminate; [|congruence].
  injection H as ->.
  rewrite (print_all_text _ _ dump_declaration_text).
  rewrite (print_all_text _ _ dump_wrapper_text).
  unfold emitted, print. fold nl. now rewrite !append_assoc.
Qed.

End Emitter.

(** ** The constructor *)

Section Constructor.

Lemma list_get_last {A} (l : list A) (x : A) :
  list_get (l ++ [x])%list (-1) = Ok x.
Proof.
  unfold list_get. rewrite length_app. cbn [List.length Z.ltb Z.compare].
  replace (Z.of_nat (List.length l + 1) + -1) with (Z.of_nat (List.length l)) by lia.
  destruct (Z.ltb_spec (Z.of_nat (List.length l)) 0) as [H|_]; [lia|].
  destruct (Z.leb_spec (Z.of_nat (List.length l + 1)) (Z.of_nat (List.length l)))
    as [H|_]; [lia|].
  cbn [orb]. rewrite Nat2Z.id, nth_error_app2, Nat.sub_diag by lia. reflexivity.
Qed.

Lemma list_get_nil {A} (i : Z) : list_get (@nil A) i = Raise IndexError.
Proof.
  unfold list_get. cbn [List.length Z.of_nat].
  destruct (i <? 0)%Z eqn:E.
  - destruct (Z.ltb_spec (0 + i) 0) as [_|H]; [reflexivity|].
    apply Z.ltb_lt in E. lia.
  - destruct (Z.leb_spec 0 i) as [_|H].
    + now rewrite orb_true_r.
    + apply Z.ltb_ge in E. lia.
Qed.

Lemma list_get_final {A} (l : list A) (d : A) :
  list_get l (-1) = match l with [] => Raise IndexError | _ => Ok (last l d) end.
Proof.
  destruct l as [|x l]; [apply list_get_nil|].
  assert (x :: l <> []) as H by discriminate.
  rewrite (app_removelast_last d H) at 1. apply list_get_last.
Qed.

Lemma snoc_not_empty (s : string) (c : ascii) : (snoc s c =? "") = false.
Proof. destruct s; reflexivity. Qed.

(** [split] without arguments yields no token exactly on blank text. *)
Lemma split_ws_go_nil (s cur : string) :
  split_ws_go cur s = [] <-> cur = "" /\ has_token s = false.
Proof.
  revert cur; induction s as [|c s IH]; intros cur; cbn [split_ws_go has_token any].
  - destruct (String.eqb_spec cur ""); split; intros H; auto; try discriminate.
    now destruct H.
  - fold (has_token s). destruct (isspace c); cbn [negb orb].
    + destruct (String.eqb_spec cur ""); [subst; apply IH|].
      split; intros H; [discriminate | now destruct H].
    + rewrite IH. split; intros [H1 H2]; [|discriminate].
      apply String.eqb_eq in H1. now rewrite snoc_not_empty in H1.
Qed.

Lemma list_get_split_ws (s : string) :
  list_get (split_ws s) (-1)
  = if has_token s then Ok (last (split_ws s) "") else Raise IndexError.
Proof.
  rewrite (list_get_final _ ""). unfold split_ws.
  destruct (split_ws_go "" s) eqn:E.
  - apply split_ws_go_nil in E as [_ ->]. reflexivity.
  - destruct (has_token s) eqn:Ht; [reflexivity|].
    assert (split_ws_go "" s = []) as H by (apply split_ws_go_nil; auto).
    congruence.
Qed.

(** The loop over the parameters succeeds exactly when every piece has a
    token. *)
Lemma call_args_map (pieces : list string) :
  call_args pieces
  = if forallb has_token pieces then Ok (map arg_of pieces) else Raise IndexError.
Proof.
  induction pieces as [|p pieces IH]; cbn [call_args forallb map]; [reflexivity|].
  rewrite list_get_split_ws. destruct (has_token p); cbn [bind andb]; [|reflexivity].
  rewrite IH. destruct (forallb has_token pieces); reflexivity.
Qed.

(** The constructor raises nothing but an index error. *)
Lemma init_raises (text : string) (e : exn) :
  ExportedFunction_init text = Raise e -> e = IndexError.
Proof.
  unfold ExportedFunction_init. rewrite list_get_split_ws, call_args_map.
  destruct (has_token _); cbn [bind]; [|congruence].
  destruct (forallb _ _); cbn [bind]; congruence.
Qed.

Lemma isspace_comma (c : ascii) : isspace c = true -> Ascii.eqb c "," = false.
Proof.
  intros H. destruct (Ascii.eqb_spec c ","); [subst; discriminate | reflexivity].
Qed.

(** Blank text has no comma, so it is one piece. *)
Lemma split_go_blank (s cur : string) :
  has_token s = false -> split_go "," cur s = [cur ++ s].
Proof.
  revert cur; induction s as [|c s IH]; intros cur H; cbn [split_go].
  - now rewrite append_nil_r.
  - cbn [has_token any] in H. apply orb_false_elim in H as [Hc Hs].
    apply negb_false_iff in Hc. rewrite (isspace_comma c Hc).
    rewrite (IH _ Hs). now rewrite snoc_append.
Qed.

Lemma pieces_have_token (s : string) :
  forallb has_token (split "," s) = true -> has_token s = true.
Proof.
  intros H. destruct (has_token s) eqn:E; [reflexivity|].
  unfold split in H. rewrite (split_go_blank s "" E) in H.
  cbn [forallb append] in H. rewrite E in H. discriminate.
Qed.

Lemma slice_drop_last (body : string) (c : ascii) (lo : Z) :
  lo = 0 ->
  str_slice (Some lo) (Some (-1)) (body ++ String c "") = body.
Proof.
  intros ->. unfold str_slice, bounds, clamp.
  rewrite length_append. cbn [String.length Z.ltb Z.compare].
  rewrite Z.min_l, Z.max_r by lia.
  replace (Z.to_nat (Z.of_nat (String.length body + 1) + -1 - 0))
    with (String.length body) by lia.
  apply substring_head.
Qed.

Lemma slice_to_last (body : string) (c : ascii) :
  str_slice None (Some (-1)) (body ++ String c "") = body.
Proof.
  unfold str_slice, bounds, clamp.
  rewrite length_append. cbn [String.length Z.ltb Z.compare].
  rewrite Z.max_r by lia.
  replace (Z.to_nat (Z.of_nat (String.length body + 1) + -1 - 0))
    with (String.length body) by lia.
  apply substring_head.
Qed.

End Constructor.

(** ** Splitting a well-formed declaration *)

Section Tokens.

Lemma any_append (p : ascii -> bool) (s t : string) :
  any p (s ++ t) = any p s || any p t.
Proof. induction s as [|c s IH]; simpl; [reflexivity|]. now rewrite IH, orb_assoc. Qed.

Lemma mem_append (c : ascii) (s t : string) :
  mem c (s ++ t) = mem c s || mem c t.
Proof. induction s as [|d s IH]; simpl; [reflexivity|]. now rewrite IH, orb_assoc. Qed.

Lemma token_parts (s : string) :
  token s = true ->
  (s =? "") = false /\ any isspace s = false
  /\ mem "(" s = false /\ mem ")" s = false /\ mem "," s = false.
Proof.
  unfold token. rewrite !andb_true_iff, !negb_true_iff. tauto.
Qed.

Lemma split_ws_go_word (w s cur : string) :
  any isspace w = false ->
  split_ws_go cur (w ++ s) = split_ws_go (cur ++ w) s.
Proof.
  revert cur; induction w as [|c w IH]; intros cur H; cbn [append].
  - now rewrite append_nil_r.
  - cbn [any] in H. apply orb_false_elim in H as [Hc Hw].
    cbn [split_ws_go]. rewrite Hc, (IH _ Hw). now rewrite snoc_append.
Qed.

Lemma split_ws_cons (w s : string) (c : ascii) :
  (w =? "") = false -> any isspace w = false -> isspace c = true ->
  split_ws_go "" (w ++ String c s) = w :: split_ws_go "" s.
Proof.
  intros Hn Hw Hc. rewrite (split_ws_go_word w _ "" Hw).
  cbn [append split_ws_go]. now rewrite Hc, Hn.
Qed.

Lemma split_ws_single (w : string) :
  (w =? "") = false -> any isspace w = false -> split_ws_go "" w = [w].
Proof.
  intros Hn Hw. rewrite <- (append_nil_r w) at 1.
  rewrite (split_ws_go_word w _ "" Hw). cbn [append split_ws_go]. now rewrite Hn.
Qed.

Lemma split_go_word (w s cur : string) :
  mem "," w = false ->
  split_go "," cur (w ++ s) = split_go "," (cur ++ w) s.
Proof.
  revert cur; induction w as [|c w IH]; intros cur H; cbn [append].
  - now rewrite append_nil_r.
  - cbn [mem] in H. apply orb_false_elim in H as [Hc Hw].
    cbn [split_go]. rewrite Ascii.eqb_sym, Hc, (IH _ Hw). now rewrite snoc_append.
Qed.

Lemma split_cons (w s : string) :
  mem "," w = false -> split_go "," "" (w ++ String "," s) = w :: split_go "," "" s.
Proof.
  intros Hw. rewrite (split_go_word w _ "" Hw). reflexivity.
Qed.

Lemma split_single (w : string) :
  mem "," w = false -> split_go "," "" w = [w].
Proof.
  intros Hw. rewrite <- (append_nil_r w) at 1.
  now rewrite (split_go_word w _ "" Hw).
Qed.

Lemma lstrip_no_star (s : string) : prefix "*" s = false -> lstrip "*" s = s.
Proof.
  destruct s as [|c s]; [reflexivity|]. cbn [prefix lstrip mem].
  destruct (ascii_dec "*" c) as [<-|Hc].
  - now destruct s.
  - intros _. destruct (Ascii.eqb_spec c "*"); [congruence | reflexivity].
Qed.

Lemma str_slice_head (p q : string) :
  str_slice None (Some (Z.of_nat (String.length p))) (p ++ q) = p.
Proof.
  unfold str_slice, bounds, clamp. rewrite length_append.
  destruct (Z.ltb_spec (Z.of_nat (String.length p)) 0) as [H|_]; [lia|].
  rewrite Z.min_l by lia.
  rewrite Z.sub_0_r, Nat2Z.id. apply substring_head.
Qed.

Lemma str_slice_mid (p m q : string) :
  str_slice (Some (Z.of_nat (String.length p)))
            (Some (Z.of_nat (String.length p) + Z.of_nat (String.length m)))
            (p ++ m ++ q) = m.
Proof.
  unfold str_slice, bounds, clamp. rewrite !length_append.
  destruct (Z.ltb_spec (Z.of_nat (String.length p)) 0) as [H|_]; [lia|].
  destruct (Z.ltb_spec (Z.of_nat (String.length p) + Z.of_nat (String.length m)) 0)
    as [H|_]; [lia|].
  rewrite !Z.min_l by lia.
  replace (Z.to_nat (Z.of_nat (String.length p) + Z.of_nat (String.length m)
                     - Z.of_nat (String.length p)))
    with (String.length m) by lia.
  rewrite Nat2Z.id, substring_skip. apply substring_head.
Qed.

End Tokens.

(** ** The claims *)

Section Signature.

Variables M R N T1 a T2 b rest : string.

Local Abbreviation params := (two_params T1 a T2 b).
Local Abbreviation text := (declaration M R N params rest).

Hypothesis HM : token M = true.
Hypothesis HR : token R = true.
Hypothesis HN : token N = true.
Hypothesis HT1 : token T1 = true.
Hypothesis Ha : token a = true.
Hypothesis HT2 : token T2 = true.
Hypothesis Hb : token b = true.
Hypothesis Ha_name : prefix "*" a = false.
Hypothesis Hb_name : prefix "*" b = false.

Lemma params_pieces :
  split "," params = [T1 ++ " " ++ a; " " ++ T2 ++ " *" ++ b].
Proof.
  destruct (token_parts _ HT1) as (_ & _ & _ & _ & C1).
  destruct (token_parts _ Ha) as (_ & _ & _ & _ & C2).
  destruct (token_parts _ HT2) as (_ & _ & _ & _ & C3).
  destruct (token_parts _ Hb) as (_ & _ & _ & _ & C4).
  unfold split, two_params.
  replace (T1 ++ " " ++ a ++ ", " ++ T2 ++ " *" ++ b)
    with ((T1 ++ " " ++ a) ++ String "," (" " ++ T2 ++ " *" ++ b))
    by (now rewrite !append_assoc).
  rewrite split_cons, split_single; [reflexivity| |].
  - cbn [append mem]. rewrite !mem_append. cbn [mem]. now rewrite C3, C4.
  - rewrite !mem_append. cbn [append mem]. now rewrite C1, C2.
Qed.

Lemma first_piece_tokens : split_ws (T1 ++ " " ++ a) = [T1; a].
Proof.
  destruct (token_parts _ HT1) as (E1 & S1 & _).
  destruct (token_parts _ Ha) as (E2 & S2 & _).
  unfold split_ws. cbn [append].
  rewrite split_ws_cons, split_ws_single; auto.
Qed.

Lemma second_piece_tokens : split_ws (" " ++ T2 ++ " *" ++ b) = [T2; "*" ++ b].
Proof.
  destruct (token_parts _ HT2) as (E1 & S1 & _).
  destruct (token_parts _ Hb) as (E2 & S2 & _).
  unfold split_ws. cbn [append split_ws_go]. cbn.
  rewrite split_ws_cons, split_ws_single; auto.
Qed.

Lemma name_tokens : split_ws (M ++ " " ++ R ++ " " ++ N) = [M; R; N].
Proof.
  destruct (token_parts _ HM) as (E1 & S1 & _).
  destruct (token_parts _ HR) as (E2 & S2 & _).
  destruct (token_parts _ HN) as (E3 & S3 & _).
  unfold split_ws. cbn [append].
  rewrite !split_ws_cons, split_ws_single; auto.
Qed.

Lemma text_parts :
  text = (M ++ " " ++ R ++ " " ++ N) ++ String "(" (params ++ String ")" rest).
Proof. unfold declaration. now rewrite !append_assoc. Qed.

Lemma left_position :
  find text "(" = Z.of_nat (String.length (M ++ " " ++ R ++ " " ++ N)).
Proof.
  destruct (token_parts _ HM) as (_ & _ & P1 & _).
  destruct (token_parts _ HR) as (_ & _ & P2 & _).
  destruct (token_parts _ HN) as (_ & _ & P3 & _).
  rewrite text_parts. unfold find. rewrite find_char; [lia|].
  rewrite !mem_append. cbn [append mem]. now rewrite P1, P2, P3.
Qed.

Lemma right_position :
  find text ")"
  = Z.of_nat (String.length ((M ++ " " ++ R ++ " " ++ N) ++ "("))
    + Z.of_nat (String.length params).
Proof.
  destruct (token_parts _ HM) as (_ & _ & _ & P1 & _).
  destruct (token_parts _ HR) as (_ & _ & _ & P2 & _).
  destruct (token_parts _ HN) as (_ & _ & _ & P3 & _).
  destruct (token_parts _ HT1) as (_ & _ & _ & P4 & _).
  destruct (token_parts _ Ha) as (_ & _ & _ & P5 & _).
  destruct (token_parts _ HT2) as (_ & _ & _ & P6 & _).
  destruct (token_parts _ Hb) as (_ & _ & _ & P7 & _).
  replace text
    with ((((M ++ " " ++ R ++ " " ++ N) ++ "(") ++ params) ++ String ")" rest)
    by (unfold declaration; now rewrite !append_assoc).
  unfold find. rewrite find_char.
  - rewrite length_append. lia.
  - unfold two_params. rewrite !mem_append. cbn [append mem]. rewrite ?mem_append.
    cbn [mem]. now rewrite P1, P2, P3, P4, P5, P6, P7.
Qed.

(** C5: a declaration [MARKER RET NAME(T1 a, T2 *b)], whatever follows
    the closing parenthesis, is parsed into the name [NAME], the return
    type [RET] and the call arguments [a] and [b], the star before [b]
    stripped; the parameter list is kept as written. *)
Theorem init_two_parameters :
  call_args (split "," params) = Ok [a; b] /\
  ExportedFunction_init text
  = Ok {| func_def := text;
          func_name := N;
          func_return := R;
          func_args := params;
          processed_args := a ++ ", " ++ b |}.
Proof.
  assert (call_args (split "," params) = Ok [a; b]) as Hc.
  { rewrite params_pieces. cbn [call_args].
    rewrite first_piece_tokens, second_piece_tokens.
    replace (list_get [T1; a] (-1)) with (Ok a) by reflexivity.
    replace (list_get [T2; "*" ++ b] (-1)) with (Ok ("*" ++ b)) by reflexivity.
    cbn [bind]. change (lstrip "*" ("*" ++ b)) with (lstrip "*" b).
    now rewrite (lstrip_no_star a Ha_name), (lstrip_no_star b Hb_name). }
  split; [exact Hc|].
  unfold ExportedFunction_init. rewrite left_position, right_position.
  assert (str_slice None (Some (Z.of_nat (String.length (M ++ " " ++ R ++ " " ++ N)))) text
          = M ++ " " ++ R ++ " " ++ N) as ->
    by (rewrite text_parts; apply str_slice_head).
  assert (str_slice
            (Some (Z.of_nat (String.length (M ++ " " ++ R ++ " " ++ N)) + 1))
            (Some (Z.of_nat (String.length ((M ++ " " ++ R ++ " " ++ N) ++ "("))
                   + Z.of_nat (String.length params))) text
          = params) as ->.
  { replace (Z.of_nat (String.length (M ++ " " ++ R ++ " " ++ N)) + 1)
      with (Z.of_nat (String.length ((M ++ " " ++ R ++ " " ++ N) ++ "(")))
      by (rewrite (length_append _ "("); cbn [String.length]; lia).
    replace text
      with (((M ++ " " ++ R ++ " " ++ N) ++ "(") ++ params ++ String ")" rest)
      by (unfold declaration; now rewrite !append_assoc).
    apply str_slice_mid. }
  rewrite name_tokens, Hc. reflexivity.
Qed.

End Signature.


(** The shape at a declaration of the library's header. *)
Lemma init_two_parameters_witness :
  ExportedFunction_init
    (declaration "LIBBPF_API" "int" "bpf_map_update_elem"
                 (two_params "int" "fd" "void" "value") (";" ++ nl))
  = Ok {| func_def := "LIBBPF_API int bpf_map_update_elem(int fd, void *value);" ++ nl;
          func_name := "bpf_map_update_elem";
          func_return := "int";
          func_args := "int fd, void *value";
          processed_args := "fd, value" |}.
Proof.
  exact (proj2 (init_two_parameters
                  "LIBBPF_API" "int" "bpf_map_update_elem" "int" "fd" "void" "value"
                  (";" ++ nl)
                  eq_refl eq_refl eq_refl eq_refl eq_refl eq_refl eq_refl
                  eq_refl eq_refl)).
Defined.

Section Malformed.

Lemma str_slice_empty (i : Z) (s : string) :
  str_slice (Some i) (Some i) s = "".
Proof.
  unfold str_slice, bounds. rewrite Z.sub_diag. apply substring_zero.
Qed.

(** C3: when nothing stands between the first opening and the first
    closing parenthesis, the constructor does not yield a signature
    without call arguments: the one empty piece of the parameter list has
    no last token, and the constructor raises. *)
Theorem empty_parameter_list_raises (text : string) :
  0 <= find text "(" ->
  find text ")" = find text "(" + 1 ->
  ExportedFunction_init text = Raise IndexError.
Proof.
  intros _ Hr. unfold ExportedFunction_init.
  rewrite Hr, str_slice_empty, list_get_split_ws.
  destruct (has_token _); reflexivity.
Qed.

(** C2, as the code has it: a text without parentheses is not refused.
    Both positions are [-1], so the text without its last character is
    taken both for the tokens before the parameters and for the
    parameter list; a signature is built from it whenever each of its
    comma-separated pieces has a token, and an index error is raised
    otherwise. *)
Theorem init_without_parentheses (body : string) (c : ascii) :
  find (body ++ String c "") "(" = -1 ->
  find (body ++ String c "") ")" = -1 ->
  ExportedFunction_init (body ++ String c "")
  = if forallb has_token (split "," body)
    then Ok {| func_def := body ++ String c "";
               func_name := last (split_ws body) "";
               func_return :=
                 join " " (list_slice (Some 1) (Some (-1)) (split_ws body));
               func_args := body;
               processed_args := join ", " (map arg_of (split "," body)) |}
    else Raise IndexError.
Proof.
  intros Hl Hr. unfold ExportedFunction_init. rewrite Hl, Hr.
  rewrite slice_to_last, (slice_drop_last body c (-1 + 1) eq_refl).
  rewrite list_get_split_ws, call_args_map.
  destruct (forallb has_token (split "," body)) eqn:E.
  - now rewrite (pieces_have_token body E).
  - destruct (has_token body); reflexivity.
Qed.

End Malformed.

Lemma empty_parameter_list_raises_witness :
  ExportedFunction_init ("LIBBPF_API int libbpf_num_cpus();" ++ nl) = Raise IndexError.
Proof.
  apply (empty_parameter_list_raises ("LIBBPF_API int libbpf_num_cpus();" ++ nl));
    vm_compute; [discriminate | reflexivity].
Defined.

Lemma init_without_parentheses_witness :
  ExportedFunction_init ("LIBBPF_API int x;" ++ nl)
  = Ok {| func_def := "LIBBPF_API int x;" ++ nl;
          func_name := "x;";
          func_return := "int";
          func_args := "LIBBPF_API int x;";
          processed_args := "x;" |}.
Proof.
  exact (init_without_parentheses "LIBBPF_API int x;" LF eq_refl eq_refl).
Defined.

(** C2, as stated, fails: this text has no parenthesis, and a signature is
    built from it all the same. *)
Lemma no_parentheses_not_refused :
  find ("LIBBPF_API int x;" ++ nl) "(" = -1 /\
  find ("LIBBPF_API int x;" ++ nl) ")" = -1 /\
  ExportedFunction_init ("LIBBPF_API int x;" ++ nl)
  = Ok {| func_def := "LIBBPF_API int x;" ++ nl;
          func_name := "x;";
          func_return := "int";
          func_args := "LIBBPF_API int x;";
          processed_args := "x;" |}.
Proof. repeat split; vm_compute; reflexivity. Qed.

Section ClosedForm.

(** The constructor in closed form: the signature of the text when the
    text parses, an index error otherwise. *)
Lemma init_closed (text : string) :
  ExportedFunction_init text
  = if parses text then Ok (signature_of text) else Raise IndexError.
Proof.
  unfold ExportedFunction_init, parses, signature_of.
  fold (head_of text). fold (params_of text).
  rewrite list_get_split_ws, call_args_map.
  destruct (has_token (head_of text)); cbn [bind andb]; [|reflexivity].
  destruct (forallb has_token (split "," (params_of text))); reflexivity.
Qed.

Lemma construct_all_closed (texts : list string) :
  construct_all texts
  = if forallb parses texts then Ok (map signature_of texts) else Raise IndexError.
Proof.
  induction texts as [|t texts IH]; [reflexivity|].
  cbn [construct_all forallb map]. rewrite init_closed, IH.
  destruct (parses t); cbn [bind andb]; [|reflexivity].
  destruct (forallb parses texts); reflexivity.
Qed.

End ClosedForm.

Section Exceptions.

Variable config : Config.

(** C10, as the code has it: at the line that ends a declaration, the
    constructor is called on the accumulated text exactly when every
    configured exception is found in it at position 0, that is, is a
    prefix of it.  The signature of the text is then appended when the
    text parses, and the run fails otherwise; when some exception is not
    at position 0 the declaration is left out, as it is when the list is
    not empty and the text contains none of its strings. *)
Theorem accepted_iff_exceptions_lead (st : Loop) (line : string) :
  has_terminator line = true ->
  has_marker line || start st = true ->
  let text := acc st ++ line ++ nl in
  ((forall skip, In skip (exceptions config) -> find text skip = 0) ->
   loop_body config st line
   = if parses text
     then Ok {| start := false; acc := "";
                defs := (defs st ++ [signature_of text])%list |}
     else Raise IndexError)
  /\ ((exists skip, In skip (exceptions config) /\ find text skip <> 0) ->
      loop_body config st line
      = Ok {| start := false; acc := ""; defs := defs st |})
  /\ (forall skip, find text skip = 0 <-> prefix skip text = true)
  /\ (exceptions config <> [] ->
      (forall skip, In skip (exceptions config) -> find text skip = -1) ->
      loop_body config st line
      = Ok {| start := false; acc := ""; defs := defs st |}).
Proof.
  intros Ht Hs text.
  pose proof (loop_body_terminated config st line Ht Hs) as Hb. fold text in Hb.
  assert ((exists skip, In skip (exceptions config) /\ find text skip <> 0) ->
          loop_body config st line
          = Ok {| start := false; acc := ""; defs := defs st |}) as Hout.
  { intros (k & Hk & Hn). rewrite Hb.
    destruct (accepted (exceptions config) text) eqn:E; [|reflexivity].
    unfold accepted in E. rewrite forallb_forall in E.
    apply E, Z.eqb_eq in Hk. contradiction. }
  repeat split.
  - intros Hall. rewrite Hb.
    assert (accepted (exceptions config) text = true) as ->.
    { unfold accepted. apply forallb_forall. intros k Hk.
      apply Z.eqb_eq. auto. }
    rewrite init_closed. destruct (parses text); reflexivity.
  - exact Hout.
  - apply find_zero_prefix.
  - apply find_zero_prefix.
  - intros Hne Hnone. apply Hout.
    destruct (exceptions config) as [|k ks]; [contradiction|].
    exists k. split; [now left|]. rewrite (Hnone k (or_introl eq_refl)). discriminate.
Qed.

End Exceptions.

(** With the exception [LIBBPF_API], which starts the declaration, the
    signature is built; with the exception [foo], which the declaration
    does not contain, the declaration is left out. *)
Lemma accepted_iff_exceptions_lead_witness :
  loop_body {| include := "bpf.h"; exceptions := ["LIBBPF_API"] |} init_loop
            "LIBBPF_API int bpf_g(int x);"
  = Ok {| start := false; acc := "";
          defs := [{| func_def := "LIBBPF_API int bpf_g(int x);" ++ nl;
                      func_name := "bpf_g";
                      func_return := "int";
                      func_args := "int x";
                      processed_args := "x" |}] |}
  /\ loop_body {| include := "bpf.h"; exceptions := ["foo"] |} init_loop
               "LIBBPF_API int bpf_g(int x);"
     = Ok init_loop.
Proof.
  split.
  - refine (proj1 (accepted_iff_exceptions_lead
                     {| include := "bpf.h"; exceptions := ["LIBBPF_API"] |}
                     init_loop "LIBBPF_API int bpf_g(int x);" eq_refl eq_refl) _).
    intros skip [<-|[]]. reflexivity.
  - refine (proj2 (proj2 (proj2 (accepted_iff_exceptions_lead
                                   {| include := "bpf.h"; exceptions := ["foo"] |}
                                   init_loop "LIBBPF_API int bpf_g(int x);"
                                   eq_refl eq_refl))) _ _).
    + discriminate.
    + intros skip [<-|[]]. reflexivity.
Defined.

(** C10, as stated, fails: the one configured exception is a prefix of
    this declaration, and no signature is constructed for it; the
    constructor raises on its empty parameter list. *)
Lemma leading_exception_not_constructed :
  forallb (fun skip => prefix skip ("LIBBPF_API int bpf_f();" ++ nl)) ["LIBBPF_API"]
  = true
  /\ loop_body {| include := "bpf.h"; exceptions := ["LIBBPF_API"] |} init_loop
               "LIBBPF_API int bpf_f();"
     = Raise IndexError.
Proof. split; vm_compute; reflexivity. Qed.

Section Runs.

Variable config : Config.

Lemma construct_all_defs (texts : list string) (fs : list ExportedFunction) :
  construct_all texts = Ok fs -> map func_def fs = texts.
Proof.
  revert fs; induction texts as [|t texts IH]; intros fs H; cbn [construct_all] in H.
  - now injection H as <-.
  - unfold ExportedFunction_init in H.
    destruct (list_get _ _) as [name|]; cbn [bind] in H; [|discriminate].
    destruct (call_args _) as [res|]; cbn [bind] in H; [|discriminate].
    destruct (construct_all texts) as [fs'|]; cbn [bind] in H; [|discriminate].
    injection H as <-. cbn [map func_def]. now rewrite (IH fs' eq_refl).
Qed.

Lemma construct_all_fails (texts : list string) (text : string) (e : exn) :
  In text texts -> ExportedFunction_init text = Raise e ->
  construct_all texts = Raise IndexError.
Proof.
  intros Hin He. induction texts as [|t texts IH]; [contradiction|].
  cbn [construct_all].
  destruct (ExportedFunction_init t) as [f|e'] eqn:Et; cbn [bind].
  - destruct Hin as [->|Hin]; [congruence|]. now rewrite (IH Hin).
  - now rewrite (init_raises t e' Et).
Qed.

(** C7, as the code has it: when every accepted declaration parses, the
    run writes the preamble, the initialisation helper, the pointer
    declaration of every accepted declaration and then the wrapper of
    every accepted declaration, each block in the order of the header and
    with one entry per accepted declaration, repeated names included;
    when one of them does not parse, the run fails and writes nothing. *)
Theorem output_in_header_order (header : string) (stdout : string) :
  let texts := filter (accepted (exceptions config))
                      (raw_decls false "" (splitlines header)) in
  main config header stdout
  = if forallb parses texts
    then (Ok tt,
          stdout ++ PREAMBLE ++ nl ++ INIT ++ nl
            ++ flat (map (fun t => declaration_text (signature_of t) ++ nl) texts)
            ++ flat (map (fun t => wrapper_text (ret_kw (signature_of t))
                                                (signature_of t) ++ nl) texts))
    else (Raise IndexError, stdout).
Proof.
  intros texts. unfold main. rewrite main_lines_emitted. fold texts.
  rewrite construct_all_closed.
  destruct (forallb parses texts); [|reflexivity].
  unfold emitted. now rewrite !map_map.
Qed.

(** C8: lines after the last terminator, among them a marker line that
    opens a declaration never ended, change nothing: the declarations
    extracted are those of the lines before, the run ends as it does on
    the lines before and writes the same text. *)
Theorem unterminated_tail_dropped (pre tail : list string) (stdout : string) :
  Forall (fun line => has_terminator line = false) tail ->
  raw_decls false "" (pre ++ tail)%list = raw_decls false "" pre /\
  main_lines config (pre ++ tail)%list stdout = main_lines config pre stdout.
Proof.
  intros H.
  assert (raw_decls false "" (pre ++ tail)%list = raw_decls false "" pre) as E.
  { destruct (raw_decls_app pre tail false "") as (b' & a' & ->).
    now rewrite (raw_decls_unterminated tail b' a' H), app_nil_r. }
  split; [exact E|]. now rewrite !main_lines_emitted, E.
Qed.

(** C4, as the code has it: there is no isolation of failures.  When the
    constructor fails on one accepted declaration of the header, the run
    ends with that error and nothing is written, whatever the other
    declarations are. *)
Theorem failure_aborts_run (lines : list string) (text : string) (e : exn)
        (stdout : string) :
  In text (raw_decls false "" lines) ->
  accepted (exceptions config) text = true ->
  ExportedFunction_init text = Raise e ->
  main_lines config lines stdout = (Raise IndexError, stdout).
Proof.
  intros Hin Hacc He. rewrite main_lines_emitted.
  rewrite (construct_all_fails _ text e); [reflexivity | | exact He].
  apply filter_In. now split.
Qed.

End Runs.

(** C6: the wrapper is the one text for every signature, but for the
    word before the forwarded call: nothing when the return type is
    [void], [return] otherwise. *)
Theorem wrapper_returns_unless_void (f : ExportedFunction) :
  dump_wrapper f
  = Ok (wrapper_text (if func_return f =? "void" then "" else "return ") f).
Proof. exact (dump_wrapper_text f). Qed.

(** ** The claims at concrete headers *)

Definition no_exceptions : Config := {| include := "bpf.h"; exceptions := [] |}.

Definition bpf_g : ExportedFunction :=
  {| func_def := "LIBBPF_API int bpf_g(int x);" ++ nl;
     func_name := "bpf_g";
     func_return := "int";
     func_args := "int x";
     processed_args := "x" |}.

Definition bpf_h : ExportedFunction :=
  {| func_def := "LIBBPF_API void bpf_h(char *s);" ++ nl;
     func_name := "bpf_h";
     func_return := "void";
     func_args := "char *s";
     processed_args := "s" |}.

(** Three declarations, one name twice: three pointer declarations, then
    three wrappers, in the order of the header. *)
Lemma output_in_header_order_witness :
  main no_exceptions
       ("LIBBPF_API int bpf_g(int x);" ++ nl
          ++ "LIBBPF_API void bpf_h(char *s);" ++ nl
          ++ "LIBBPF_API int bpf_g(int x);" ++ nl) ""
  = (Ok tt,
     PREAMBLE ++ nl ++ INIT ++ nl
       ++ flat (map (fun f => declaration_text f ++ nl) [bpf_g; bpf_h; bpf_g])
       ++ flat (map (fun f => wrapper_text (ret_kw f) f ++ nl) [bpf_g; bpf_h; bpf_g])).
Proof.
  exact (output_in_header_order
           no_exceptions
           ("LIBBPF_API int bpf_g(int x);" ++ nl
              ++ "LIBBPF_API void bpf_h(char *s);" ++ nl
              ++ "LIBBPF_API int bpf_g(int x);" ++ nl) "").
Defined.

(** C7, as stated, fails: on this header the run ends in the loop and
    writes nothing, not even the preamble. *)
Lemma failed_run_writes_no_preamble :
  main no_exceptions ("LIBBPF_API int bpf_f();" ++ nl) "" = (Raise IndexError, "")
  /\ prefix PREAMBLE (snd (main no_exceptions ("LIBBPF_API int bpf_f();" ++ nl) ""))
     = false.
Proof. split; vm_compute; reflexivity. Qed.

Lemma unterminated_tail_dropped_witness :
  main_lines no_exceptions
             ["LIBBPF_API int bpf_g(int x);"; "LIBBPF_API int bpf_h(int y,"; "    int z)"]
             ""
  = main_lines no_exceptions ["LIBBPF_API int bpf_g(int x);"] "".
Proof.
  apply (unterminated_tail_dropped
           no_exceptions ["LIBBPF_API int bpf_g(int x);"]
           ["LIBBPF_API int bpf_h(int y,"; "    int z)"] "").
  repeat constructor.
Defined.

Lemma failure_aborts_run_witness :
  main_lines no_exceptions ["LIBBPF_API int bpf_f();"; "LIBBPF_API int bpf_g(int x);"] ""
  = (Raise IndexError, "").
Proof.
  apply (failure_aborts_run no_exceptions _ ("LIBBPF_API int bpf_f();" ++ nl) IndexError).
  - left. reflexivity.
  - reflexivity.
  - reflexivity.
Defined.

(** C4, as stated, fails: the second declaration is parsed and written
    when it stands alone, and is not written when the declaration before
    it has an empty parameter list, on which the constructor raises. *)
Lemma one_failure_aborts_all :
  main no_exceptions ("LIBBPF_API int bpf_g(int x);" ++ nl) ""
  = (Ok tt, emitted [bpf_g]) /\
  main no_exceptions
       ("LIBBPF_API int bpf_f();" ++ nl ++ "LIBBPF_API int bpf_g(int x);" ++ nl) ""
  = (Raise IndexError, "").
Proof. split; vm_compute; reflexivity. Qed.

(** C1 on the code: with the exception [foo], a declaration in which
    [foo] does not occur is discarded, [find] answering [-1], which is
    true; and a declaration that starts with the configured exception is
    kept, [find] answering [0], which is false. *)
Theorem exception_test_inverted :
  (find ("LIBBPF_API int bpf_g(int x);" ++ nl) "foo" = -1 /\
   main {| include := "bpf.h"; exceptions := ["foo"] |}
        ("LIBBPF_API int bpf_g(int x);" ++ nl) ""
   = (Ok tt, emitted []))
  /\
  (find ("LIBBPF_API int bpf_g(int x);" ++ nl) "LIBBPF_API int bpf_g" = 0 /\
   main {| include := "bpf.h"; exceptions := ["LIBBPF_API int bpf_g"] |}
        ("LIBBPF_API int bpf_g(int x);" ++ nl) ""
   = (Ok tt, emitted [bpf_g])).
Proof. repeat split; vm_compute; reflexivity. Qed.

(** ** More on the extraction loop *)

Section Occurrences.

Lemma prefix_append (s t : string) : prefix s (s ++ t) = true.
Proof.
  induction s as [|c s IH]; simpl.
  - now destruct t.
  - destruct (ascii_dec c c); [assumption | contradiction].
Qed.

Lemma prefix_split (s t : string) :
  prefix s t = true -> exists r, t = s ++ r.
Proof.
  revert t; induction s as [|c s IH]; intros t H.
  - now exists t.
  - destruct t as [|d t]; simpl in H; [discriminate|].
    destruct (ascii_dec c d) as [->|]; [|discriminate].
    destruct (IH t H) as [r ->]. now exists r.
Qed.

(** Two prefixes of one text: one of them is a prefix of the other. *)
Lemma prefix_comparable (s a b : string) :
  prefix a s = true -> prefix b s = true ->
  prefix a b = true \/ prefix b a = true.
Proof.
  revert a b; induction s as [|c s IH]; intros a b Ha Hb.
  - destruct a; [|discriminate]. destruct b; [now left | discriminate].
  - destruct a as [|x a]; [left; now destruct b|].
    destruct b as [|y b]; [right; reflexivity|].
    simpl in Ha, Hb |- *.
    destruct (ascii_dec x c) as [->|]; [|discriminate].
    destruct (ascii_dec y c) as [->|]; [|discriminate].
    destruct (ascii_dec c c); [|contradiction]. now apply IH.
Qed.

(** [find] answers a position exactly when [sub] occurs somewhere. *)
Lemma find_from_occurs (sub s : string) (i : Z) :
  0 <= i ->
  (find_from i sub s <> -1 <-> exists p r, s = p ++ sub ++ r).
Proof.
  revert i; induction s as [|c s IH]; intros i Hi; cbn [find_from].
  - destruct (prefix sub "") eqn:E.
    + split; [intros _|lia]. apply prefix_split in E as [r ->]. now exists "", r.
    + split; [congruence|]. intros (p & r & H).
      destruct p; [|discriminate]. cbn [append] in H.
      rewrite H in E. now rewrite prefix_append in E.
  - destruct (prefix sub (String c s)) eqn:E.
    + split; [intros _|lia]. apply prefix_split in E as [r ->]. now exists "", r.
    + rewrite (IH (i + 1)) by lia. split; intros (p & r & H).
      * exists (String c p), r. cbn [append]. now rewrite H.
      * destruct p as [|d p]; cbn [append] in H.
        -- rewrite H in E. now rewrite prefix_append in E.
        -- injection H as _ ->. now exists p, r.
Qed.

(** What occurs in a line occurs in every text around it. *)
Lemma find_in_context (sub line before after : string) :
  find line sub <> -1 -> find (before ++ line ++ after) sub <> -1.
Proof.
  unfold find. rewrite !find_from_occurs by lia.
  intros (p & r & ->). exists (before ++ p), (r ++ after).
  now rewrite !append_assoc.
Qed.

Lemma find_in_front (sub text after : string) :
  find text sub <> -1 -> find (text ++ after) sub <> -1.
Proof.
  unfold find. rewrite !find_from_occurs by lia.
  intros (p & r & ->). exists p, (r ++ after).
  now rewrite !append_assoc.
Qed.

Lemma occurs_true (s sub : string) :
  negb (find s sub =? -1)%Z = true <-> find s sub <> -1.
Proof. rewrite negb_true_iff. apply Z.eqb_neq. Qed.

End Occurrences.

Section Headers.

Variable config : Config.

Lemma emitted_nil : emitted [] = PREAMBLE ++ nl ++ INIT ++ nl.
Proof. reflexivity. Qed.

Lemma raw_decls_unmarked (pre rest : list string) :
  Forall (fun line => has_marker line = false) pre ->
  raw_decls false "" (pre ++ rest)%list = raw_decls false "" rest.
Proof.
  induction 1 as [|line pre Hl _ IH]; [reflexivity|].
  cbn [app raw_decls]. now rewrite Hl, andb_false_r.
Qed.

(** X1: a header without a marker line yields no declaration: the run
    completes and writes the preamble and the initialisation helper, and
    nothing else. *)
Theorem no_marker_only_boilerplate (lines : list string) (stdout : string) :
  Forall (fun line => has_marker line = false) lines ->
  main_lines config lines stdout = (Ok tt, stdout ++ PREAMBLE ++ nl ++ INIT ++ nl).
Proof.
  intros H. rewrite main_lines_emitted.
  rewrite <- (app_nil_r lines), (raw_decls_unmarked lines [] H).
  reflexivity.
Qed.

(** X2: the lines before the first marker line play no part, terminators
    among them included: a run on the header is the run on the header
    without them. *)
Theorem lines_before_marker_ignored (pre rest : list string) (stdout : string) :
  Forall (fun line => has_marker line = false) pre ->
  main_lines config (pre ++ rest)%list stdout = main_lines config rest stdout.
Proof.
  intros H. now rewrite !main_lines_emitted, (raw_decls_unmarked pre rest H).
Qed.

Lemma loop_body_sync (st st' : Loop) (line : string) :
  (start st = false -> acc st = "") ->
  loop_body config st line = Ok st' ->
  start st' = false -> acc st' = "".
Proof.
  intros Hinv Hb.
  destruct (has_terminator line && (has_marker line || start st)) eqn:E.
  - apply andb_prop in E as [Ht Hs].
    rewrite (loop_body_terminated config st line Ht Hs) in Hb.
    destruct (accepted _ _).
    + destruct (ExportedFunction_init _); cbn [bind] in Hb; [|discriminate].
      now injection Hb as <-.
    + now injection Hb as <-.
  - rewrite (loop_body_open config st line E) in Hb. injection Hb as <-.
    cbn [start acc]. intros Hs. rewrite Hs. apply orb_false_elim in Hs as [_ Hs].
    auto.
Qed.

Lemma loop_sync (lines : list string) (st st' : Loop) :
  (start st = false -> acc st = "") ->
  loop config st lines = Ok st' ->
  start st' = false -> acc st' = "".
Proof.
  revert st; induction lines as [|line lines IH]; intros st Hinv Hl; cbn [loop] in Hl.
  - now injection Hl as <-.
  - destruct (loop_body config st line) as [st1|] eqn:Hb; cbn [bind] in Hl;
      [|discriminate].
    exact (IH st1 (loop_body_sync st st1 line Hinv Hb) Hl).
Qed.

(** X3: the flag and the accumulator stay in step along the loop: in
    every state reached from one where a clear flag goes with an empty
    accumulator, a clear flag goes with an empty accumulator. *)
Theorem loop_keeps_accumulator_in_step (lines : list string) (st st' : Loop) :
  (start st = false -> acc st = "") ->
  loop config st lines = Ok st' ->
  start st' = false -> acc st' = "".
Proof. exact (loop_sync lines st st'). Qed.

Lemma loop_app (st : Loop) (l1 l2 : list string) :
  loop config st (l1 ++ l2)%list = st' <- loop config st l1 ;; loop config st' l2.
Proof.
  revert st; induction l1 as [|line l1 IH]; intros st; simpl; [reflexivity|].
  destruct (loop_body config st line); simpl; auto.
Qed.

Lemma loop_body_reset (st st' : Loop) (line : string) :
  (start st = false -> acc st = "") ->
  has_terminator line = true ->
  loop_body config st line = Ok st' ->
  start st' = false /\ acc st' = "".
Proof.
  intros Hinv Ht Hb.
  destruct (has_marker line || start st) eqn:Hs.
  - rewrite (loop_body_terminated config st line Ht Hs) in Hb.
    destruct (accepted _ _).
    + destruct (ExportedFunction_init _); cbn [bind] in Hb; [|discriminate].
      now injection Hb as <-.
    + now injection Hb as <-.
  - rewrite (loop_body_open config st line) in Hb by (now rewrite Hs, andb_false_r).
    injection Hb as <-. cbn [start acc]. rewrite Hs.
    apply orb_false_elim in Hs as [_ Hs]. auto.
Qed.

Lemma loop_reset (lines : list string) (line : string) (st' : Loop) :
  has_terminator line = true ->
  loop config init_loop (lines ++ [line])%list = Ok st' ->
  start st' = false /\ acc st' = "".
Proof.
  intros Ht Hl. rewrite loop_app in Hl.
  destruct (loop config init_loop lines) as [st1|] eqn:H1; cbn [bind loop] in Hl;
    [|discriminate].
  destruct (loop_body config st1 line) as [st2|] eqn:Hb; cbn [bind] in Hl;
    [|discriminate].
  injection Hl as <-.
  apply (loop_body_reset st1 st2 line); auto.
  apply (loop_sync lines init_loop st1); auto.
Qed.

(** X4: after a line with a terminator, whether or not it ended a
    declaration and whether or not that declaration was kept, the flag is
    clear and the accumulator is empty. *)
Theorem terminator_resets (lines : list string) (line : string) (st' : Loop) :
  has_terminator line = true ->
  loop config init_loop (lines ++ [line])%list = Ok st' ->
  start st' = false /\ acc st' = "".
Proof. exact (loop_reset lines line st'). Qed.

Lemma loop_body_shift (d : list ExportedFunction) (st st' : Loop) (line : string) :
  loop_body config st line = Ok st' ->
  loop_body config {| start := start st; acc := acc st; defs := (d ++ defs st)%list |} line
  = Ok {| start := start st'; acc := acc st'; defs := (d ++ defs st')%list |}.
Proof.
  intros Hb.
  destruct (has_terminator line && (has_marker line || start st)) eqn:E.
  - apply andb_prop in E as [Ht Hs].
    rewrite (loop_body_terminated config st line Ht Hs) in Hb.
    rewrite (loop_body_terminated
               config {| start := start st; acc := acc st; defs := (d ++ defs st)%list |}
               line Ht Hs).
    cbn [start acc defs].
    destruct (accepted _ _).
    + destruct (ExportedFunction_init _); cbn [bind] in Hb |- *; [|discriminate].
      injection Hb as <-. cbn [start acc defs]. now rewrite app_assoc.
    + now injection Hb as <-.
  - rewrite (loop_body_open config st line E) in Hb.
    rewrite (loop_body_open
               config {| start := start st; acc := acc st; defs := (d ++ defs st)%list |}
               line E).
    now injection Hb as <-.
Qed.

Lemma loop_shift (d : list ExportedFunction) (lines : list string) (st st' : Loop) :
  loop config st lines = Ok st' ->
  loop config {| start := start st; acc := acc st; defs := (d ++ defs st)%list |} lines
  = Ok {| start := start st'; acc := acc st'; defs := (d ++ defs st')%list |}.
Proof.
  revert st; induction lines as [|line lines IH]; intros st Hl; cbn [loop] in Hl |- *.
  - now injection Hl as <-.
  - destruct (loop_body config st line) as [st1|] eqn:Hb; cbn [bind] in Hl;
      [|discriminate].
    rewrite (loop_body_shift d st st1 line Hb). cbn [bind]. now apply IH.
Qed.

(** X5: a header cut after a line with a terminator is extracted part by
    part: when the loop completes on each part, it completes on the
    whole, and the definitions of the whole are those of the first part
    followed by those of the second. *)
Theorem declarations_compose (l1 l2 : list string) (line : string) (st1 st2 : Loop) :
  has_terminator line = true ->
  loop config init_loop (l1 ++ [line])%list = Ok st1 ->
  loop config init_loop l2 = Ok st2 ->
  loop config init_loop (l1 ++ line :: l2)%list
  = Ok {| start := start st2; acc := acc st2; defs := (defs st1 ++ defs st2)%list |}.
Proof.
  intros Ht H1 H2.
  destruct (loop_reset l1 line st1 Ht H1) as [Hs Ha].
  change (l1 ++ line :: l2)%list with (l1 ++ [line] ++ l2)%list.
  rewrite app_assoc, loop_app, H1. cbn [bind].
  pose proof (loop_shift (defs st1) l2 init_loop st2 H2) as H.
  cbn [init_loop start acc defs] in H. rewrite app_nil_r in H.
  destruct st1 as [s1 a1 d1]. cbn [start acc defs] in *. now subst.
Qed.

Lemma incomparable_exclude (k1 k2 : string) (lines : list string) (stdout : string) :
  In k1 (exceptions config) -> In k2 (exceptions config) ->
  prefix k1 k2 = false -> prefix k2 k1 = false ->
  main_lines config lines stdout = (Ok tt, stdout ++ PREAMBLE ++ nl ++ INIT ++ nl).
Proof.
  intros H1 H2 N1 N2. rewrite main_lines_emitted.
  assert (forall l, filter (accepted (exceptions config)) l = []) as ->;
    [|reflexivity].
  induction l as [|text l IH]; [reflexivity|]. cbn [filter].
  destruct (accepted (exceptions config) text) eqn:E; [|exact IH].
  pose proof (proj1 (accepted_prefix _ _) E) as P.
  destruct (prefix_comparable text k1 k2 (P k1 H1) (P k2 H2)); congruence.
Qed.

(** X6: two configured exceptions of which neither starts the other
    exclude every declaration: whatever the header, the run writes the
    preamble and the initialisation helper only. *)
Theorem incomparable_exceptions_exclude_all (k1 k2 : string) (lines : list string)
        (stdout : string) :
  In k1 (exceptions config) -> In k2 (exceptions config) ->
  prefix k1 k2 = false -> prefix k2 k1 = false ->
  main_lines config lines stdout = (Ok tt, stdout ++ PREAMBLE ++ nl ++ INIT ++ nl).
Proof. exact (incomparable_exclude k1 k2 lines stdout). Qed.

Lemma marker_in_text (line before after : string) (b : bool) :
  (b = true -> has_marker before = true) ->
  has_marker line || b = true ->
  has_marker (before ++ line ++ after) = true.
Proof.
  unfold has_marker. rewrite !occurs_true. intros Hb H.
  destruct (Z.eq_dec (find line "LIBBPF_API") (-1)) as [E|E].
  - rewrite E in H. cbn [Z.eqb negb orb] in H. apply find_in_front. auto.
  - now apply find_in_context.
Qed.

Lemma terminator_in_text (line before after : string) :
  has_terminator line = true ->
  has_terminator (before ++ line ++ after) = true.
Proof.
  unfold has_terminator. rewrite !occurs_true. apply find_in_context.
Qed.

Lemma raw_decls_marked (lines : list string) (b : bool) (a text : string) :
  (b = true -> has_marker a = true) ->
  In text (raw_decls b a lines) ->
  has_marker text = true /\ has_terminator text = true
  /\ exists body, text = body ++ nl.
Proof.
  revert b a; induction lines as [|line lines IH]; intros b a Hinv Hin;
    cbn [raw_decls] in Hin; [contradiction|].
  destruct (has_terminator line && (has_marker line || b)) eqn:E.
  - apply andb_prop in E as [Ht Hs]. rewrite Hs in Hin.
    destruct Hin as [<-|Hin].
    + split; [exact (marker_in_text line a nl b Hinv Hs)|].
      split; [exact (terminator_in_text line a nl Ht)|].
      exists (a ++ line). now rewrite append_assoc.
    + apply (IH false ""); [discriminate | exact Hin].
  - apply (IH _ _) in Hin; [exact Hin|].
    intros Hs. rewrite Hs. exact (marker_in_text line a nl b Hinv Hs).
Qed.

(** X8: every declaration handed to the constructor has the marker and
    a terminator in its text and ends with a line feed: so has the text
    recorded in every definition the loop builds. *)
Theorem definitions_hold_marked_text (lines : list string) (st : Loop)
        (f : ExportedFunction) :
  loop config init_loop lines = Ok st ->
  In f (defs st) ->
  has_marker (func_def f) = true /\ has_terminator (func_def f) = true
  /\ exists body, func_def f = body ++ nl.
Proof.
  intros Hl Hin. pose proof (loop_defs config lines init_loop) as H.
  rewrite Hl in H. cbn [bind init_loop start acc defs] in H.
  destruct (construct_all _) as [fs|] eqn:E; cbn [bind app] in H; [|discriminate].
  injection H as H. rewrite H in Hin.
  apply construct_all_defs in E.
  assert (In (func_def f) (raw_decls false "" lines)) as Hr.
  { apply (in_map func_def) in Hin. rewrite E in Hin.
    now apply filter_In in Hin. }
  apply (raw_decls_marked lines false ""); [discriminate | exact Hr].
Qed.

Lemma splitlines_go_line (l rest cur : string) :
  any islinebreak l = false ->
  splitlines_go cur (l ++ String LF rest) = (cur ++ l) :: splitlines_go "" rest.
Proof.
  revert cur; induction l as [|c l IH]; intros cur H; cbn [append].
  - now rewrite append_nil_r.
  - cbn [any] in H. apply orb_false_elim in H as [Hc Hl].
    cbn [splitlines_go]. rewrite Hc.
    destruct (Ascii.eqb_spec c CR) as [->|_]; [discriminate|].
    rewrite (IH _ Hl). now rewrite snoc_append.
Qed.

Lemma splitlines_lines (lines : list string) :
  Forall (fun l => any islinebreak l = false) lines ->
  splitlines (flat (map (fun l => l ++ nl) lines)) = lines.
Proof.
  unfold splitlines. induction 1 as [|l lines Hl _ IH]; [reflexivity|].
  cbn [map flat fold_right]. fold (flat (map (fun l => l ++ nl) lines)).
  unfold nl at 1. rewrite append_assoc. cbn [append].
  now rewrite (splitlines_go_line l _ "" Hl), IH.
Qed.

(** X9: reading the header line by line: for lines free of line
    boundaries, each written with a line feed after it, the run on the
    text is the run on those lines. *)
Theorem header_read_by_lines (lines : list string) (stdout : string) :
  Forall (fun l => any islinebreak l = false) lines ->
  main config (flat (map (fun l => l ++ nl) lines)) stdout
  = main_lines config lines stdout.
Proof. intros H. unfold main. now rewrite (splitlines_lines lines H). Qed.

End Headers.

(** ** More on the constructor *)

Section Declarations.

Lemma join_cons (sep x y : string) (l : list string) :
  join sep (x :: y :: l) = x ++ sep ++ join sep (y :: l).
Proof. reflexivity. Qed.

(** Tokens joined by single spaces are split into the same tokens. *)
Lemma split_ws_join (ws : list string) :
  forallb token ws = true -> split_ws (join " " ws) = ws.
Proof.
  unfold split_ws. induction ws as [|x ws IH]; [reflexivity|].
  cbn [forallb]. intros H. apply andb_prop in H as [Hx Hws].
  destruct (token_parts x Hx) as (Ex & Sx & _).
  destruct ws as [|y ws]; [now apply split_ws_single|].
  rewrite join_cons. cbn [append].
  rewrite (split_ws_cons x _ " " Ex Sx eq_refl). now rewrite (IH Hws).
Qed.

Lemma mem_join (c : ascii) (ws : list string) :
  Ascii.eqb c " " = false ->
  forallb (fun w => negb (mem c w)) ws = true ->
  mem c (join " " ws) = false.
Proof.
  intros Hc. induction ws as [|x ws IH]; [reflexivity|].
  cbn [forallb]. intros H. apply andb_prop in H as [Hx Hws].
  apply negb_true_iff in Hx.
  destruct ws as [|y ws]; [exact Hx|].
  rewrite join_cons, mem_append, Hx. cbn [append mem orb]. rewrite Hc.
  now apply IH.
Qed.

Lemma tokens_without (c : ascii) (ws : list string) :
  c = "("%char \/ c = ")"%char ->
  forallb token ws = true -> forallb (fun w => negb (mem c w)) ws = true.
Proof.
  intros Hc H. rewrite forallb_forall in H |- *. intros w Hw.
  destruct (token_parts w (H w Hw)) as (_ & _ & P1 & P2 & _).
  destruct Hc as [->| ->]; [now rewrite P1 | now rewrite P2].
Qed.

Lemma list_slice_middle {A} (x y : A) (l : list A) :
  list_slice (Some 1) (Some (-1)) (x :: l ++ [y])%list = l.
Proof.
  unfold list_slice, bounds, clamp. cbn [List.length Z.ltb Z.compare].
  rewrite length_app. cbn [List.length].
  rewrite Z.min_l, Z.max_r by lia.
  replace (Z.to_nat (Z.of_nat (S (List.length l + 1)) + -1 - 1))
    with (List.length l) by lia.
  change (Z.to_nat 1) with 1%nat. cbn [skipn].
  now rewrite firstn_app, firstn_all, Nat.sub_diag, app_nil_r.
Qed.

Variables (M N params rest : string) (rs : list string).

Local Abbreviation front := (join " " (M :: rs ++ [N])%list).
Local Abbreviation text := (front ++ "(" ++ params ++ ")" ++ rest).

Hypothesis Htok : forallb token (M :: rs ++ [N])%list = true.
Hypothesis Hparams : mem ")" params = false.

Lemma opening_position : find text "(" = Z.of_nat (String.length front).
Proof.
  unfold find. cbn [append]. rewrite find_char; [lia|].
  apply mem_join; [reflexivity|]. apply tokens_without; auto.
Qed.

Lemma closing_position :
  find text ")"
  = Z.of_nat (String.length (front ++ "(")) + Z.of_nat (String.length params).
Proof.
  replace text with (((front ++ "(") ++ params) ++ String ")" rest)
    by (now rewrite !append_assoc).
  unfold find. rewrite find_char; [rewrite length_append; lia|].
  rewrite !mem_append, Hparams. cbn [mem orb].
  rewrite mem_join; [reflexivity | reflexivity |]. apply tokens_without; auto.
Qed.

Lemma init_declaration :
  ExportedFunction_init text
  = if forallb has_token (split "," params)
    then Ok {| func_def := text;
               func_name := N;
               func_return := join " " rs;
               func_args := params;
               processed_args := join ", " (map arg_of (split "," params)) |}
    else Raise IndexError.
Proof.
  unfold ExportedFunction_init. rewrite opening_position, closing_position.
  rewrite str_slice_head.
  assert (str_slice (Some (Z.of_nat (String.length front) + 1))
                    (Some (Z.of_nat (String.length (front ++ "("))
                           + Z.of_nat (String.length params))) text
          = params) as ->.
  { replace (Z.of_nat (String.length front) + 1)
      with (Z.of_nat (String.length (front ++ "(")))
      by (rewrite (length_append _ "("); cbn [String.length]; lia).
    replace text with ((front ++ "(") ++ params ++ String ")" rest)
      by (now rewrite !append_assoc).
    apply str_slice_mid. }
  rewrite (split_ws_join _ Htok).
  change (M :: rs ++ [N])%list with ((M :: rs) ++ [N])%list at 1.
  rewrite list_get_last. cbn [bind].
  rewrite list_slice_middle, call_args_map.
  destruct (forallb has_token (split "," params)); reflexivity.
Qed.

End Declarations.

(** X10: a declaration whose tokens before the parameter list are
    separated by single spaces: the first token is dropped as the marker,
    the last is the name, those between, joined by single spaces, are the
    return type, and the text up to the first closing parenthesis is the
    parameter list; construction succeeds exactly when each
    comma-separated parameter has a token. *)
Theorem init_of_declaration (M N params rest : string) (rs : list string) :
  forallb token (M :: rs ++ [N])%list = true ->
  mem ")" params = false ->
  ExportedFunction_init (join " " (M :: rs ++ [N])%list ++ "(" ++ params ++ ")" ++ rest)
  = if forallb has_token (split "," params)
    then Ok {| func_def :=
                 join " " (M :: rs ++ [N])%list ++ "(" ++ params ++ ")" ++ rest;
               func_name := N;
               func_return := join " " rs;
               func_args := params;
               processed_args := join ", " (map arg_of (split "," params)) |}
    else Raise IndexError.
Proof. exact (init_declaration M N params rest rs). Qed.

Lemma init_of_declaration_witness :
  ExportedFunction_init ("LIBBPF_API const char *bpf_name(int fd, unsigned int *len);" ++ nl)
  = Ok {| func_def :=
            "LIBBPF_API const char *bpf_name(int fd, unsigned int *len);" ++ nl;
          func_name := "*bpf_name";
          func_return := "const char";
          func_args := "int fd, unsigned int *len";
          processed_args := "fd, len" |}.
Proof.
  exact (init_of_declaration "LIBBPF_API" "*bpf_name" "int fd, unsigned int *len"
                             (";" ++ nl) ["const"; "char"] eq_refl eq_refl).
Defined.

Section OneParameter.

Lemma token_has_token (w : string) :
  (w =? "") = false -> any isspace w = false -> has_token w = true.
Proof.
  destruct w as [|c w]; [discriminate|]. intros _ H. cbn [any] in H.
  apply orb_false_elim in H as [Hc _]. cbn [has_token any]. now rewrite Hc.
Qed.

(** X11: a parameter list of one token is forwarded as one argument, the
    token without its leading stars; no token, [void] included, is taken
    to stand for an empty parameter list. *)
Theorem single_token_parameter_forwarded (M N p rest : string) (rs : list string) :
  forallb token (M :: rs ++ [N])%list = true ->
  token p = true ->
  ExportedFunction_init (join " " (M :: rs ++ [N])%list ++ "(" ++ p ++ ")" ++ rest)
  = Ok {| func_def := join " " (M :: rs ++ [N])%list ++ "(" ++ p ++ ")" ++ rest;
          func_name := N;
          func_return := join " " rs;
          func_args := p;
          processed_args := lstrip "*" p |}.
Proof.
  intros Htok Hp. destruct (token_parts p Hp) as (E & S & _ & C & K).
  rewrite (init_declaration M N p rest rs Htok C).
  unfold split. rewrite (split_single p K). cbn [forallb map join String.concat].
  rewrite (token_has_token p E S). cbn [andb].
  unfold arg_of, split_ws. now rewrite (split_ws_single p E S).
Qed.

End OneParameter.

Lemma single_token_parameter_forwarded_witness :
  ExportedFunction_init ("LIBBPF_API void bpf_reset(void);" ++ nl)
  = Ok {| func_def := "LIBBPF_API void bpf_reset(void);" ++ nl;
          func_name := "bpf_reset";
          func_return := "void";
          func_args := "void";
          processed_args := "void" |}.
Proof.
  exact (single_token_parameter_forwarded "LIBBPF_API" "bpf_reset" "void" (";" ++ nl)
                                          ["void"] eq_refl eq_refl).
Defined.

(** X12: the pointer declaration is rendered for every signature, without
    failure: [static], the return type, the name prefixed with [real_]
    as a pointer, the parameter list as written, initialised to [NULL]. *)
Theorem declaration_rendered (f : ExportedFunction) :
  dump_declaration f
  = Ok (nl ++ "static  " ++ func_return f ++ " (*real_" ++ func_name f ++ ")("
           ++ func_args f ++ ") = NULL;" ++ nl).
Proof. exact (dump_declaration_text f). Qed.

(** ** What every constructed signature satisfies *)

Section Signatures.

Lemma find_char_absent (c : ascii) (s : string) (i : Z) :
  mem c s = false -> find_from i (String c "") s = -1.
Proof.
  revert i; induction s as [|d s IH]; intros i H; simpl in *.
  - reflexivity.
  - apply orb_false_elim in H as [Hd Hs].
    destruct (ascii_dec c d) as [->|]; [now rewrite Ascii.eqb_refl in Hd | auto].
Qed.

Lemma mem_split (c : ascii) (s : string) :
  mem c s = true -> exists p r, s = p ++ String c r /\ mem c p = false.
Proof.
  induction s as [|d s IH]; cbn [mem]; [discriminate|].
  destruct (Ascii.eqb_spec c d) as [->|Hd]; cbn [orb].
  - intros _. now exists "", s.
  - intros H. destruct (IH H) as (p & r & -> & Hp).
    exists (String d p), r. cbn [append mem].
    destruct (Ascii.eqb_spec c d); [contradiction | auto].
Qed.

(** The answer of [find] for one character: [-1] when the character is
    absent, the length of what stands before its first occurrence
    otherwise. *)
Lemma find_char_spec (c : ascii) (s : string) :
  (find s (String c "") = -1 /\ mem c s = false)
  \/ exists p r, s = p ++ String c r /\ mem c p = false
                 /\ find s (String c "") = Z.of_nat (String.length p).
Proof.
  unfold find. destruct (mem c s) eqn:E.
  - right. destruct (mem_split c s E) as (p & r & -> & Hp).
    exists p, r. rewrite (find_char c p r 0 Hp). auto.
  - left. now rewrite find_char_absent.
Qed.

Lemma mem_substring (c : ascii) (s : string) (n m : nat) :
  mem c s = false -> mem c (substring n m s) = false.
Proof.
  revert n m; induction s as [|d s IH]; intros n m H.
  - destruct n, m; reflexivity.
  - cbn [mem] in H. apply orb_false_elim in H as [Hd Hs].
    destruct n, m; cbn [substring mem]; auto.
    now rewrite Hd, IH.
Qed.

Lemma mem_str_slice (c : ascii) (s : string) (lo hi : option Z) :
  mem c s = false -> mem c (str_slice lo hi s) = false.
Proof.
  intros H. unfold str_slice. destruct (bounds _ lo hi). now apply mem_substring.
Qed.

Lemma substring_within (p q : string) (n m : nat) :
  (n + m <= String.length p)%nat -> substring n m (p ++ q) = substring n m p.
Proof.
  revert n m; induction p as [|d p IH]; intros n m H; cbn [String.length] in H.
  - assert (n = 0%nat /\ m = 0%nat) as [-> ->] by lia. cbn [append].
    now rewrite substring_zero.
  - destruct n, m; cbn [append substring]; auto.
    + rewrite IH; [reflexivity | lia].
    + apply IH. lia.
    + apply IH. lia.
Qed.

Lemma list_get_In {A} (l : list A) (i : Z) (x : A) :
  list_get l i = Ok x -> In x l.
Proof.
  unfold list_get. destruct (_ || _)%bool; [discriminate|].
  destruct (nth_error l _) eqn:E; [|discriminate].
  intros H. injection H as <-. now apply nth_error_In in E.
Qed.

(** Every token of [split] is not empty, has no whitespace, and has no
    character that the text does not have. *)
Lemma split_ws_go_tokens (s cur w : string) :
  any isspace cur = false ->
  In w (split_ws_go cur s) ->
  (w =? "") = false /\ any isspace w = false
  /\ forall c, mem c cur = false -> mem c s = false -> mem c w = false.
Proof.
  revert cur; induction s as [|d s IH]; intros cur Hcur Hin; cbn [split_ws_go] in Hin.
  - destruct (cur =? "") eqn:E; [contradiction|].
    destruct Hin as [<-|[]]. auto.
  - destruct (isspace d) eqn:Hd.
    + assert (In w (split_ws_go "" s) ->
              (w =? "") = false /\ any isspace w = false
              /\ forall c, mem c cur = false -> mem c (String d s) = false ->
                           mem c w = false) as Hrec.
      { intros Hin'. destruct (IH "" eq_refl Hin') as (H1 & H2 & H3).
        repeat split; auto. intros c _ Hc. cbn [mem] in Hc.
        apply orb_false_elim in Hc as [_ Hc]. now apply H3. }
      destruct (cur =? "") eqn:E; [now apply Hrec|].
      destruct Hin as [<-|Hin]; [auto | now apply Hrec].
    + assert (any isspace (snoc cur d) = false) as Hs.
      { unfold snoc. rewrite any_append, Hcur. cbn [any]. now rewrite Hd. }
      destruct (IH _ Hs Hin) as (H1 & H2 & H3). repeat split; auto.
      intros c Hc1 Hc2. cbn [mem] in Hc2. apply orb_false_elim in Hc2 as [Hc2 Hc3].
      apply H3; [|exact Hc3]. unfold snoc. rewrite mem_append, Hc1. cbn [mem].
      now rewrite Hc2.
Qed.

Lemma last_token (s name : string) :
  list_get (split_ws s) (-1) = Ok name ->
  (name =? "") = false /\ any isspace name = false
  /\ forall c, mem c s = false -> mem c name = false.
Proof.
  intros H. apply list_get_In in H.
  destruct (split_ws_go_tokens s "" name eq_refl H) as (H1 & H2 & H3).
  repeat split; auto.
Qed.

(** The text before the first opening parenthesis has none. *)
Lemma front_without_opening (text : string) :
  mem "(" (str_slice None (Some (find text "(")) text) = false.
Proof.
  destruct (find_char_spec "(" text) as [[_ H]|(p & r & -> & Hp & ->)].
  - now apply mem_str_slice.
  - now rewrite str_slice_head.
Qed.

(** The text taken as parameter list has no closing parenthesis. *)
Lemma args_without_closing (text : string) (lo : Z) :
  mem ")" (str_slice (Some lo) (Some (find text ")")) text) = false.
Proof.
  destruct (find_char_spec ")" text) as [[_ H]|(p & r & -> & Hp & ->)].
  - now apply mem_str_slice.
  - unfold str_slice, bounds. rewrite length_append.
    set (a := clamp _ lo).
    assert (clamp (Z.of_nat (String.length p + String.length (String ")" r)))
                  (Z.of_nat (String.length p))
            = Z.of_nat (String.length p)) as ->.
    { unfold clamp. destruct (Z.ltb_spec (Z.of_nat (String.length p)) 0); lia. }
    destruct (Z.le_gt_cases (Z.of_nat (String.length p)) a) as [Hle|Hgt].
    + replace (Z.to_nat (Z.of_nat (String.length p) - a)) with 0%nat by lia.
      now rewrite substring_zero.
    + assert (0 <= a) as Ha.
      { subst a. unfold clamp. destruct (Z.ltb_spec lo 0); lia. }
      rewrite substring_within by lia. now apply mem_substring.
Qed.

Lemma init_fields (text : string) (f : ExportedFunction) :
  ExportedFunction_init text = Ok f ->
  func_def f = text
  /\ list_get (split_ws (str_slice None (Some (find text "(")) text)) (-1)
     = Ok (func_name f)
  /\ func_args f = str_slice (Some (find text "(" + 1)) (Some (find text ")")) text
  /\ processed_args f = join ", " (map arg_of (split "," (func_args f)))
  /\ forallb has_token (split "," (func_args f)) = true.
Proof.
  unfold ExportedFunction_init. rewrite call_args_map.
  destruct (list_get _ _) as [name|]; cbn [bind]; [|discriminate].
  destruct (forallb has_token _) eqn:E; cbn [bind]; [|discriminate].
  intros H. injection H as <-. cbn. auto.
Qed.

End Signatures.

(** X13: whatever the text, a constructed signature has a name that is
    not empty and has neither whitespace nor an opening parenthesis, and a
    parameter list without a closing parenthesis; the text itself is kept
    unchanged. *)
Theorem signature_well_formed (text : string) (f : ExportedFunction) :
  ExportedFunction_init text = Ok f ->
  func_def f = text
  /\ (func_name f =? "") = false
  /\ any isspace (func_name f) = false
  /\ mem "(" (func_name f) = false
  /\ mem ")" (func_args f) = false.
Proof.
  intros H. destruct (init_fields text f H) as (Hd & Hn & Ha & _).
  destruct (last_token _ _ Hn) as (H1 & H2 & H3).
  repeat split; auto.
  - apply H3, front_without_opening.
  - rewrite Ha. apply args_without_closing.
Qed.

Section CallArguments.

Lemma lstrip_no_leading_star (s : string) : prefix "*" (lstrip "*" s) = false.
Proof.
  induction s as [|c s IH]; [reflexivity|]. cbn [lstrip mem orb].
  destruct (Ascii.eqb_spec c "*") as [->|Hc]; cbn [orb]; [exact IH|].
  cbn [prefix]. destruct (ascii_dec "*" c); [congruence | reflexivity].
Qed.

Lemma lstrip_no_space (chars s : string) :
  any isspace s = false -> any isspace (lstrip chars s) = false.
Proof.
  induction s as [|c s IH]; [reflexivity|]. intros H. cbn [lstrip].
  destruct (mem c chars); [|exact H].
  cbn [any] in H. apply orb_false_elim in H as [_ H]. auto.
Qed.

Lemma arg_of_bare (piece : string) :
  has_token piece = true ->
  prefix "*" (arg_of piece) = false /\ any isspace (arg_of piece) = false.
Proof.
  intros H. unfold arg_of. split; [apply lstrip_no_leading_star|].
  apply lstrip_no_space.
  pose proof (list_get_split_ws piece) as G. rewrite H in G.
  now destruct (last_token _ _ G) as (_ & S & _).
Qed.

End CallArguments.

(** X14: a constructed signature forwards one argument for each
    comma-separated piece of its parameter list, and no argument starts
    with a star or has whitespace in it. *)
Theorem call_arguments_bare (text : string) (f : ExportedFunction) :
  ExportedFunction_init text = Ok f ->
  exists res,
    call_args (split "," (func_args f)) = Ok res
    /\ processed_args f = join ", " res
    /\ List.length res = List.length (split "," (func_args f))
    /\ Forall (fun r => prefix "*" r = false /\ any isspace r = false) res.
Proof.
  intros H. destruct (init_fields text f H) as (_ & _ & _ & Hp & Ht).
  exists (map arg_of (split "," (func_args f))).
  rewrite call_args_map, Ht. repeat split; auto using length_map.
  apply Forall_forall. intros r Hr. apply in_map_iff in Hr as (piece & <- & Hin).
  apply arg_of_bare. rewrite forallb_forall in Ht. auto.
Qed.

Section Verbatim.


End Verbatim.


(** ** The configuration *)

Section Configuration.

Variable open_read : value -> outcome string.

Lemma skip_values_strs (skips : list string) (text : string) (b : bool) :
  skip_values (map VStr skips) text b = Done (skip_loop skips text b).
Proof.
  induction skips as [|k skips IH]; cbn [map skip_values skip_loop]; [reflexivity|].
  destruct (truthy (find text k)); auto.
Qed.

Section WellFormed.

Variables (config : value) (excs : value) (skips : list string) (path : string).

Hypothesis Hexcs : getitem config "exceptions" = Done excs.
Hypothesis Hiter : iter excs = Done (map VStr skips).

Local Abbreviation cfg := {| include := path; exceptions := skips |}.

Lemma loop_body_config_refines (st : Loop) (line : string) :
  loop_body_config config st line = lift (loop_body cfg st line).
Proof.
  unfold loop_body_config, loop_body. cbn [exceptions].
  destruct (has_terminator line && _); [|reflexivity].
  rewrite Hexcs. cbn [obind]. rewrite Hiter. cbn [obind].
  rewrite skip_values_strs. cbn [obind].
  destruct (skip_loop skips _ _); [|reflexivity].
  destruct (ExportedFunction_init _); reflexivity.
Qed.

Lemma loop_config_refines (lines : list string) (st : Loop) :
  loop_config config st lines = lift (loop cfg st lines).
Proof.
  revert st; induction lines as [|line lines IH]; intros st; [reflexivity|].
  cbn [loop_config loop]. rewrite loop_body_config_refines.
  destruct (loop_body cfg st line); cbn [lift obind bind]; auto.
Qed.

Lemma main_config_refines (header stdout : string) :
  getitem config "include" = Done (VStr path) ->
  open_read (VStr path) = Done header ->
  main_config open_read config stdout
  = (lift (fst (main cfg header stdout)), snd (main cfg header stdout)).
Proof.
  intros Hp Ho. unfold main_config, main, main_lines.
  rewrite Hp. cbn [obind]. rewrite Ho. cbn [obind].
  rewrite loop_config_refines.
  destruct (loop cfg init_loop (splitlines header)) as [st|e]; cbn [lift]; [|reflexivity].
  rewrite (print_all_text _ _ dump_declaration_text).
  rewrite (print_all_text _ _ dump_wrapper_text). reflexivity.
Qed.

End WellFormed.

Lemma loop_config_without_key (config : value) (lines : list string) (st : Loop) :
  getitem config "exceptions" = Fail (Exn KeyError) ->
  match raw_decls (start st) (acc st) lines with
  | [] => exists st', loop_config config st lines = Done st' /\ defs st' = defs st
  | _ :: _ => loop_config config st lines = Fail (Exn KeyError)
  end.
Proof.
  intros Hk. revert st; induction lines as [|line lines IH]; intros st.
  - now exists st.
  - cbn [raw_decls loop_config]. unfold loop_body_config.
    replace (if has_marker line then true else start st)
      with (has_marker line || start st) by (now destruct (has_marker line)).
    fold nl.
    destruct (has_terminator line && (has_marker line || start st)).
    + now rewrite Hk.
    + cbn [obind].
      exact (IH {| start := has_marker line || start st;
                   acc := if has_marker line || start st
                          then acc st ++ line ++ nl else acc st;
                   defs := defs st |}).
Qed.

End Configuration.

(** X16: a configuration that is a dictionary with a string under
    [include] and, under [exceptions], something that is gone through as
    strings, runs as the record of that path and those strings does on the
    text of the file. *)
Theorem configuration_as_record (open_read : value -> outcome string)
        (config excs : value) (skips : list string) (path header stdout : string) :
  getitem config "exceptions" = Done excs ->
  iter excs = Done (map VStr skips) ->
  getitem config "include" = Done (VStr path) ->
  open_read (VStr path) = Done header ->
  main_config open_read config stdout
  = (lift (fst (main {| include := path; exceptions := skips |} header stdout)),
     snd (main {| include := path; exceptions := skips |} header stdout)).
Proof.
  intros He Hi Hp Ho.
  exact (main_config_refines open_read config excs skips path He Hi header stdout Hp Ho).
Qed.

(** X17: the key [exceptions] is looked up where a declaration ends, not
    before: without the key, a header in which no declaration ends is
    processed to the end, and a header in which one ends stops the run
    with a key error before anything is written. *)
Theorem exceptions_key_looked_up_late (open_read : value -> outcome string)
        (items : list (string * value)) (path : value) (header stdout : string) :
  assoc "include" items = Some path ->
  open_read path = Done header ->
  assoc "exceptions" items = None ->
  main_config open_read (VDict items) stdout
  = match raw_decls false "" (splitlines header) with
    | [] => (Done tt, stdout ++ PREAMBLE ++ nl ++ INIT ++ nl)
    | _ :: _ => (Fail (Exn KeyError), stdout)
    end.
Proof.
  intros Hp Ho He. unfold main_config. cbn [getitem]. rewrite Hp. cbn [obind].
  rewrite Ho. cbn [obind].
  assert (getitem (VDict items) "exceptions" = Fail (Exn KeyError)) as Hk
    by (cbn [getitem]; now rewrite He).
  pose proof (loop_config_without_key (VDict items) (splitlines header) init_loop Hk) as H.
  cbn [init_loop start acc defs] in H.
  destruct (raw_decls false "" (splitlines header)).
  - destruct H as (st' & -> & Hd). rewrite Hd. cbn [print_all lift].
    unfold print. fold nl. now rewrite !append_assoc.
  - now rewrite H.
Qed.

(** X18: a string under [exceptions] is gone through character by
    character; when it has two different characters no declaration is
    kept, and the run writes the preamble and the initialisation helper
    only. *)
Theorem exceptions_as_one_string (open_read : value -> outcome string)
        (config : value) (s path header stdout : string) (c1 c2 : ascii) :
  getitem config "exceptions" = Done (VStr s) ->
  getitem config "include" = Done (VStr path) ->
  open_read (VStr path) = Done header ->
  In c1 (list_ascii_of_string s) -> In c2 (list_ascii_of_string s) -> c1 <> c2 ->
  main_config open_read config stdout
  = (Done tt, stdout ++ PREAMBLE ++ nl ++ INIT ++ nl).
Proof.
  intros He Hp Ho H1 H2 Hc.
  set (skips := map (fun c => String c "") (list_ascii_of_string s)).
  assert (iter (VStr s) = Done (map VStr skips)) as Hi
    by (unfold skips; cbn [iter]; now rewrite map_map).
  rewrite (main_config_refines open_read config (VStr s) skips path He Hi
                               header stdout Hp Ho).
  unfold main.
  rewrite (incomparable_exclude {| include := path; exceptions := skips |}
                                (String c1 "") (String c2 "")); [reflexivity| | | |].
  - exact (in_map (fun c => String c "") _ c1 H1).
  - exact (in_map (fun c => String c "") _ c2 H2).
  - cbn [prefix]. destruct (ascii_dec c1 c2); [contradiction | reflexivity].
  - cbn [prefix]. destruct (ascii_dec c2 c1); [congruence | reflexivity].
Qed.

(** ** The further properties at concrete headers *)

Definition one_definition : Loop := {| start := false; acc := ""; defs := [bpf_g] |}.

(** A file system with the one header [bpf.h]. *)
Definition one_header (v : value) : outcome string :=
  match v with
  | VStr path =>
      if path =? "bpf.h" then Done ("LIBBPF_API int bpf_g(int x);" ++ nl)
      else Fail OSError
  | _ => Fail TypeError
  end.

Lemma no_marker_only_boilerplate_witness :
  main_lines no_exceptions ["#include <linux/bpf.h>"; "struct bpf_map;"] ""
  = (Ok tt, "" ++ PREAMBLE ++ nl ++ INIT ++ nl).
Proof.
  apply (no_marker_only_boilerplate
           no_exceptions ["#include <linux/bpf.h>"; "struct bpf_map;"] "").
  repeat constructor.
Defined.

Lemma lines_before_marker_ignored_witness :
  main_lines no_exceptions ["struct bpf_map;"; "LIBBPF_API int bpf_g(int x);"] ""
  = main_lines no_exceptions ["LIBBPF_API int bpf_g(int x);"] "".
Proof.
  apply (lines_before_marker_ignored
           no_exceptions ["struct bpf_map;"] ["LIBBPF_API int bpf_g(int x);"] "").
  repeat constructor.
Defined.

Lemma loop_keeps_accumulator_in_step_witness :
  loop no_exceptions init_loop ["LIBBPF_API int bpf_g(int x);"; "int y"]
  = Ok one_definition
  /\ acc one_definition = "".
Proof.
  split; [reflexivity|].
  apply (loop_keeps_accumulator_in_step
           no_exceptions ["LIBBPF_API int bpf_g(int x);"; "int y"]
           init_loop one_definition); reflexivity.
Defined.

Lemma terminator_resets_witness :
  start one_definition = false /\ acc one_definition = "".
Proof.
  apply (terminator_resets no_exceptions ["LIBBPF_API int bpf_g(int x);"] "int y;"
                           one_definition); reflexivity.
Defined.

Lemma declarations_compose_witness :
  loop no_exceptions init_loop
       ["struct bpf_map;"; "LIBBPF_API int bpf_g(int x);"; "LIBBPF_API int bpf_g(int x);"]
  = Ok {| start := false; acc := ""; defs := [bpf_g; bpf_g] |}.
Proof.
  apply (declarations_compose
           no_exceptions ["struct bpf_map;"] ["LIBBPF_API int bpf_g(int x);"]
           "LIBBPF_API int bpf_g(int x);" one_definition one_definition);
    reflexivity.
Defined.

Lemma incomparable_exceptions_exclude_all_witness :
  main_lines {| include := "bpf.h"; exceptions := ["bpf_map"; "bpf_prog"] |}
             ["LIBBPF_API int bpf_g(int x);"] ""
  = (Ok tt, "" ++ PREAMBLE ++ nl ++ INIT ++ nl).
Proof.
  apply (incomparable_exceptions_exclude_all
           {| include := "bpf.h"; exceptions := ["bpf_map"; "bpf_prog"] |}
           "bpf_map" "bpf_prog" ["LIBBPF_API int bpf_g(int x);"] "").
  - left. reflexivity.
  - right. left. reflexivity.
  - reflexivity.
  - reflexivity.
Defined.

Lemma definitions_hold_marked_text_witness :
  has_marker (func_def bpf_g) = true /\ has_terminator (func_def bpf_g) = true
  /\ exists body, func_def bpf_g = body ++ nl.
Proof.
  apply (definitions_hold_marked_text
           no_exceptions ["LIBBPF_API int bpf_g(int x);"] one_definition bpf_g).
  - reflexivity.
  - left. reflexivity.
Defined.

Lemma header_read_by_lines_witness :
  main no_exceptions
       (flat (map (fun l => l ++ nl) ["LIBBPF_API int bpf_g(int x,"; "    int y);"])) ""
  = main_lines no_exceptions ["LIBBPF_API int bpf_g(int x,"; "    int y);"] "".
Proof.
  apply (header_read_by_lines
           no_exceptions ["LIBBPF_API int bpf_g(int x,"; "    int y);"] "").
  repeat constructor.
Defined.

Lemma signature_well_formed_witness :
  func_def bpf_g = "LIBBPF_API int bpf_g(int x);" ++ nl
  /\ (func_name bpf_g =? "") = false
  /\ any isspace (func_name bpf_g) = false
  /\ mem "(" (func_name bpf_g) = false
  /\ mem ")" (func_args bpf_g) = false.
Proof.
  apply (signature_well_formed ("LIBBPF_API int bpf_g(int x);" ++ nl) bpf_g).
  reflexivity.
Defined.

Lemma call_arguments_bare_witness :
  exists res,
    call_args (split "," (func_args bpf_g)) = Ok res
    /\ processed_args bpf_g = join ", " res
    /\ List.length res = List.length (split "," (func_args bpf_g))
    /\ Forall (fun r => prefix "*" r = false /\ any isspace r = false) res.
Proof.
  apply (call_arguments_bare ("LIBBPF_API int bpf_g(int x);" ++ nl) bpf_g).
  reflexivity.
Defined.


Lemma configuration_as_record_witness :
  main_config one_header
              (VDict [("include", VStr "bpf.h"); ("exceptions", VList [])]) ""
  = (Done tt, emitted [bpf_g]).
Proof.
  apply (configuration_as_record
           one_header (VDict [("include", VStr "bpf.h"); ("exceptions", VList [])])
           (VList []) [] "bpf.h" ("LIBBPF_API int bpf_g(int x);" ++ nl) "");
    reflexivity.
Defined.

Lemma exceptions_key_looked_up_late_witness :
  main_config one_header (VDict [("include", VStr "bpf.h")]) ""
  = (Fail (Exn KeyError), "").
Proof.
  apply (exceptions_key_looked_up_late
           one_header [("include", VStr "bpf.h")] (VStr "bpf.h")
           ("LIBBPF_API int bpf_g(int x);" ++ nl) ""); reflexivity.
Defined.

Lemma exceptions_as_one_string_witness :
  main_config one_header
              (VDict [("include", VStr "bpf.h"); ("exceptions", VStr "bpf_g")]) ""
  = (Done tt, "" ++ PREAMBLE ++ nl ++ INIT ++ nl).
Proof.
  apply (exceptions_as_one_string
           one_header (VDict [("include", VStr "bpf.h"); ("exceptions", VStr "bpf_g")])
           "bpf_g" "bpf.h" ("LIBBPF_API int bpf_g(int x);" ++ nl) "" "b" "p").
  - reflexivity.
  - reflexivity.
  - reflexivity.
  - left. reflexivity.
  - right. left. reflexivity.
  - discriminate.
Defined.

(** ** Accumulation over several lines, and the empty exception *)

Section Accumulation.

Variable config : Config.

Lemma loop_open_lines (lines : list string) (a : string) (d : list ExportedFunction) :
  Forall (fun line => has_terminator line = false) lines ->
  loop config {| start := true; acc := a; defs := d |} lines
  = Ok {| start := true;
          acc := a ++ flat (map (fun l => l ++ nl) lines);
          defs := d |}.
Proof.
  intros H; revert a; induction H as [|line lines Hl _ IH]; intros a.
  - cbn [loop map flat fold_right]. now rewrite append_nil_r.
  - cbn [loop]. rewrite loop_body_open by (cbn [start]; now rewrite Hl).
    cbn [bind start acc defs]. rewrite orb_true_r, IH.
    cbn [map flat fold_right]. now rewrite !append_assoc.
Qed.

Lemma flat_app (l1 l2 : list string) : flat (l1 ++ l2)%list = flat l1 ++ flat l2.
Proof.
  induction l1 as [|x l1 IH]; [reflexivity|].
  cbn [app]. change (flat (x :: (l1 ++ l2)%list)) with (x ++ flat (l1 ++ l2)%list).
  change (flat (x :: l1)) with (x ++ flat l1). now rewrite IH, append_assoc.
Qed.

Lemma lines_text (first last : string) (between : list string) :
  flat (map (fun l => l ++ nl) (first :: between ++ [last])%list)
  = first ++ nl ++ flat (map (fun l => l ++ nl) between) ++ last ++ nl.
Proof.
  cbn [map]. rewrite map_app. cbn [map].
  change (flat ((first ++ nl) :: ?l)) with ((first ++ nl) ++ flat l).
  rewrite flat_app.
  change (flat [last ++ nl]) with ((last ++ nl) ++ "").
  now rewrite append_nil_r, !append_assoc.
Qed.

(** X20: a declaration is the text of all its lines, from the marker
    line to the line with the terminator, each followed by a line feed;
    markers on the lines between do not start it anew.  The constructor
    is called on that text when it is accepted. *)
Theorem declaration_spans_lines (first last : string) (between : list string) :
  has_marker first = true ->
  Forall (fun line => has_terminator line = false) (first :: between) ->
  has_terminator last = true ->
  let text := flat (map (fun l => l ++ nl) (first :: between ++ [last])%list) in
  loop config init_loop (first :: between ++ [last])%list
  = if accepted (exceptions config) text
    then f <- ExportedFunction_init text ;;
         Ok {| start := false; acc := ""; defs := [f] |}
    else Ok init_loop.
Proof.
  intros Hm Hopen Ht text. inversion Hopen as [|x l Hf Hb]; subst.
  cbn [loop]. rewrite loop_body_open by (now rewrite Hf).
  cbn [bind init_loop start acc defs]. rewrite Hm. cbn [orb append].
  rewrite loop_app, (loop_open_lines between _ [] Hb). cbn [bind loop].
  rewrite loop_body_terminated by (cbn [start]; auto using orb_true_r).
  cbn [start acc defs app bind].
  assert (((first ++ nl) ++ flat (map (fun l => l ++ nl) between)) ++ last ++ nl = text)
    as -> by (unfold text; now rewrite lines_text, !append_assoc).
  destruct (accepted _ text); [|reflexivity].
  destruct (ExportedFunction_init text); reflexivity.
Qed.

End Accumulation.

Lemma find_empty (text : string) : find text "" = 0.
Proof. apply find_zero_prefix. now destruct text. Qed.

(** X19: the empty string among the exceptions has no effect: it is
    found at position 0 of every text, so it excludes nothing, and the run
    is the run of the configuration without it. *)
Theorem empty_exception_has_no_effect (path : string) (before after : list string)
        (lines : list string) (stdout : string) :
  main_lines {| include := path; exceptions := (before ++ "" :: after)%list |}
             lines stdout
  = main_lines {| include := path; exceptions := (before ++ after)%list |}
               lines stdout.
Proof.
  rewrite !main_lines_emitted. cbn [exceptions].
  rewrite (filter_ext (accepted (before ++ "" :: after)%list)
                      (accepted (before ++ after)%list)); [reflexivity|].
  intros text. unfold accepted. rewrite !forallb_app. cbn [forallb].
  now rewrite find_empty.
Qed.

Lemma declaration_spans_lines_witness :
  loop no_exceptions init_loop
       ["LIBBPF_API int bpf_g(int x,"; "LIBBPF_API  int y,"; "  int z);"]
  = Ok {| start := false; acc := "";
          defs := [{| func_def :=
                        "LIBBPF_API int bpf_g(int x," ++ nl
                          ++ "LIBBPF_API  int y," ++ nl ++ "  int z);" ++ nl;
                      func_name := "bpf_g";
                      func_return := "int";
                      func_args :=
                        "int x," ++ nl ++ "LIBBPF_API  int y," ++ nl ++ "  int z";
                      processed_args := "x, y, z" |}] |}.
Proof.
  apply (declaration_spans_lines
           no_exceptions "LIBBPF_API int bpf_g(int x," "  int z);"
           ["LIBBPF_API  int y,"]).
  - reflexivity.
  - repeat constructor.
  - reflexivity.
Defined.

(** ** What a run depends on, and how it can fail *)

Section World.

Lemma main_config_emitted (open_read : value -> outcome string) (config : value)
      (stdout : string) :
  main_config open_read config stdout
  = match (path <~ getitem config "include" ;;
           header <~ open_read path ;;
           loop_config config init_loop (splitlines header)) with
    | Done st => (Done tt, stdout ++ emitted (defs st))
    | Fail e => (Fail e, stdout)
    end.
Proof.
  unfold main_config.
  destruct (path <~ getitem config "include" ;; _) as [st|e]; [|reflexivity].
  rewrite (print_all_text _ _ dump_declaration_text).
  rewrite (print_all_text _ _ dump_wrapper_text).
  unfold emitted, print. fold nl. cbn [lift]. now rewrite !append_assoc.
Qed.

Lemma loop_body_config_agree (c1 c2 : value) (st : Loop) (line : string) :
  getitem c1 "exceptions" = getitem c2 "exceptions" ->
  loop_body_config c1 st line = loop_body_config c2 st line.
Proof. intros H. unfold loop_body_config. now rewrite H. Qed.

Lemma loop_config_agree (c1 c2 : value) (lines : list string) (st : Loop) :
  getitem c1 "exceptions" = getitem c2 "exceptions" ->
  loop_config c1 st lines = loop_config c2 st lines.
Proof.
  intros H. revert st; induction lines as [|line lines IH]; intros st; [reflexivity|].
  cbn [loop_config]. rewrite (loop_body_config_agree c1 c2 st line H).
  destruct (loop_body_config c2 st line); cbn [obind]; auto.
Qed.

Lemma getitem_fails (v : value) (key : string) (e : error) :
  getitem v key = Fail e -> e = Exn KeyError \/ e = TypeError.
Proof.
  destruct v; cbn [getitem]; try (intros H; injection H as <-; now right).
  destruct (assoc key items); [discriminate|]. intros H. injection H as <-. now left.
Qed.

Lemma iter_fails (v : value) (e : error) : iter v = Fail e -> e = TypeError.
Proof. destruct v; cbn [iter]; congruence. Qed.

Lemma skip_values_fails (skips : list value) (text : string) (b : bool) (e : error) :
  skip_values skips text b = Fail e -> e = TypeError.
Proof.
  induction skips as [|v skips IH]; cbn [skip_values]; [discriminate|].
  destruct v; try congruence. destruct (truthy _); [discriminate | exact IH].
Qed.

Lemma loop_body_config_fails (config : value) (st : Loop) (line : string) (e : error) :
  loop_body_config config st line = Fail e ->
  e = Exn KeyError \/ e = TypeError \/ e = Exn IndexError.
Proof.
  unfold loop_body_config. destruct (has_terminator line && _); [|discriminate].
  destruct (getitem config "exceptions") as [excs|e1] eqn:E1; cbn [obind].
  2:{ intros H. injection H as <-. destruct (getitem_fails _ _ _ E1); auto. }
  destruct (iter excs) as [skips|e2] eqn:E2; cbn [obind].
  2:{ intros H. injection H as <-. rewrite (iter_fails _ _ E2). auto. }
  destruct (skip_values skips _ _) as [b|e3] eqn:E3; cbn [obind].
  2:{ intros H. injection H as <-. rewrite (skip_values_fails _ _ _ _ E3). auto. }
  destruct b; cbn [obind]; [|discriminate].
  destruct (ExportedFunction_init _) as [f|e4] eqn:E4; cbn [lift obind]; [discriminate|].
  intros H. injection H as <-. rewrite (init_raises _ _ E4). auto.
Qed.

Lemma loop_config_fails (config : value) (lines : list string) (st : Loop) (e : error) :
  loop_config config st lines = Fail e ->
  e = Exn KeyError \/ e = TypeError \/ e = Exn IndexError.
Proof.
  revert st; induction lines as [|line lines IH]; intros st; cbn [loop_config];
    [discriminate|].
  destruct (loop_body_config config st line) as [st1|e1] eqn:E1; cbn [obind].
  - apply IH.
  - intros H. injection H as <-. exact (loop_body_config_fails _ _ _ _ E1).
Qed.

End World.

(** C9: a run is determined by the header text and the two entries of the
    configuration it reads.  Two runs given the same [include] and
    [exceptions] and the same text under that path end the same way and
    write the same text, whatever else differs: the other entries of the
    configuration, the other files, what standard output held before. *)
Theorem runs_write_the_same (fs1 fs2 : value -> outcome string) (c1 c2 : value)
        (out1 out2 : string) :
  getitem c1 "include" = getitem c2 "include" ->
  getitem c1 "exceptions" = getitem c2 "exceptions" ->
  (forall path, getitem c1 "include" = Done path -> fs1 path = fs2 path) ->
  fst (main_config fs1 c1 out1) = fst (main_config fs2 c2 out2)
  /\ exists written,
       snd (main_config fs1 c1 out1) = out1 ++ written
       /\ snd (main_config fs2 c2 out2) = out2 ++ written.
Proof.
  intros Hi He Hf. rewrite !main_config_emitted, <- Hi.
  destruct (getitem c1 "include") as [path|e] eqn:E; cbn [obind].
  2:{ split; [reflexivity|]. exists "". now rewrite !append_nil_r. }
  rewrite <- (Hf path eq_refl).
  destruct (fs1 path) as [header|e]; cbn [obind].
  2:{ split; [reflexivity|]. exists "". now rewrite !append_nil_r. }
  rewrite (loop_config_agree c1 c2 _ init_loop He).
  destruct (loop_config c2 init_loop (splitlines header)) as [st|e]; cbn [fst snd].
  - split; [reflexivity|]. now exists (emitted (defs st)).
  - split; [reflexivity|]. exists "". now rewrite !append_nil_r.
Qed.

(** X7: a run that ends in an error has written nothing.  The error is a
    key error or a type error from the configuration, the error of
    opening or reading the header, or the index error of the constructor;
    rendering the templates never fails. *)
Theorem failed_run_wrote_nothing (open_read : value -> outcome string)
        (config : value) (stdout : string) (e : error) :
  fst (main_config open_read config stdout) = Fail e ->
  snd (main_config open_read config stdout) = stdout
  /\ (e = Exn KeyError \/ e = TypeError \/ e = Exn IndexError
      \/ exists path, getitem config "include" = Done path /\ open_read path = Fail e).
Proof.
  rewrite main_config_emitted.
  destruct (getitem config "include") as [path|e1] eqn:E1; cbn [obind].
  2:{ cbn [fst snd]. intros H. injection H as <-. split; [reflexivity|].
      destruct (getitem_fails _ _ _ E1); auto. }
  destruct (open_read path) as [header|e2] eqn:E2; cbn [obind].
  2:{ cbn [fst snd]. intros H. injection H as <-. split; [reflexivity|].
      right. right. right. now exists path. }
  destruct (loop_config config init_loop (splitlines header)) as [st|e3] eqn:E3;
    cbn [fst snd]; [discriminate|].
  intros H. injection H as <-. split; [reflexivity|].
  destruct (loop_config_fails _ _ _ _ E3) as [?|[?|?]]; auto.
Qed.

(** Two worlds that agree on the header and on the two entries read. *)
Definition two_headers (v : value) : outcome string :=
  match v with
  | VStr path =>
      if path =? "bpf.h" then Done ("LIBBPF_API int bpf_g(int x);" ++ nl)
      else if path =? "btf.h" then Done ("LIBBPF_API int btf_g(int y);" ++ nl)
      else Fail OSError
  | _ => Fail TypeError
  end.

Lemma runs_write_the_same_witness :
  fst (main_config one_header
                   (VDict [("include", VStr "bpf.h"); ("exceptions", VList [])]) "")
  = fst (main_config two_headers
                     (VDict [("comment", VStr "second run"); ("include", VStr "bpf.h");
                             ("exceptions", VList [])])
                     "written before")
  /\ exists written,
       snd (main_config one_header
                        (VDict [("include", VStr "bpf.h"); ("exceptions", VList [])]) "")
       = "" ++ written
       /\ snd (main_config two_headers
                           (VDict [("comment", VStr "second run");
                                   ("include", VStr "bpf.h");
                                   ("exceptions", VList [])])
                           "written before")
          = "written before" ++ written.
Proof.
  apply (runs_write_the_same
           one_header two_headers
           (VDict [("include", VStr "bpf.h"); ("exceptions", VList [])])
           (VDict [("comment", VStr "second run"); ("include", VStr "bpf.h");
                   ("exceptions", VList [])])
           "" "written before").
  - reflexivity.
  - reflexivity.
  - intros path H. injection H as <-. reflexivity.
Defined.

Lemma failed_run_wrote_nothing_witness :
  snd (main_config one_header (VDict [("include", VStr "bpf.h")]) "written before")
  = "written before"
  /\ (Exn KeyError = Exn KeyError \/ Exn KeyError = TypeError
      \/ Exn KeyError = Exn IndexError
      \/ exists path,
           getitem (VDict [("include", VStr "bpf.h")]) "include" = Done path
           /\ one_header path = Fail (Exn KeyError)).
Proof.
  apply (failed_run_wrote_nothing
           one_header (VDict [("include", VStr "bpf.h")]) "written before"
           (Exn KeyError)).
  reflexivity.
Defined.
